(** * LeetCode spaced-repetition scheduler: the server's store operations
      and the client's notes codec, embedded and verified.

    Sources embedded here:
    - [server/index.js]: the schedule generator [generateSchedule] and the
      Express handlers over the two SQLite tables [questions] and
      [schedule].  The file holds the server twice; the two copies differ
      in the [foreign_keys] pragma and in the handler of
      [PUT /api/questions/:id/notes].
    - [client/src/App.jsx]: [parseNotes] and the [JSON.stringify] call of
      [saveNotes]. *)

From Stdlib Require Import ZArith NArith Lia List String Ascii Bool DecimalString.
From stdpp Require Import base list strings gmap.

Open Scope Z_scope.

(* ===================================================================== *)
(** * dayjs: calendar dates *)
(* ===================================================================== *)

(** The server uses three operations of the dayjs library: parsing a
    ['YYYY-MM-DD'] text, [add(n, 'day')] and [format('YYYY-MM-DD')].  They
    are modelled on calendar days; the time of day and the time zone play no
    part in them. *)
Module Dayjs.

Record date := mkDate { year : Z; month : Z; day : Z }.

(** A dayjs object wraps a JavaScript [Date], which may be the invalid
    date. *)
Inductive t := Valid (d : date) | Invalid.

Definition is_leap (y : Z) : bool :=
  ((y mod 4 =? 0) && negb (y mod 100 =? 0)) || (y mod 400 =? 0).

Definition days_in_month (y m : Z) : Z :=
  if m =? 2 then (if is_leap y then 29 else 28)
  else if (m =? 4) || (m =? 6) || (m =? 9) || (m =? 11) then 30
  else 31.

Definition next_day (d : date) : date :=
  if day d <? days_in_month (year d) (month d)
  then mkDate (year d) (month d) (day d + 1)
  else if month d <? 12
       then mkDate (year d) (month d + 1) 1
       else mkDate (year d + 1) 1 1.

Definition prev_day (d : date) : date :=
  if 1 <? day d
  then mkDate (year d) (month d) (day d - 1)
  else if 1 <? month d
       then mkDate (year d) (month d - 1)
                   (days_in_month (year d) (month d - 1))
       else mkDate (year d - 1) 12 31.

(** [Date.prototype.setDate(date() + n)]: the day of the month overflows
    into the following (or preceding) months. *)
Definition add_days (n : Z) (d : date) : date :=
  if 0 <=? n then Nat.iter (Z.to_nat n) next_day d
  else Nat.iter (Z.to_nat (- n)) prev_day d.

(** [x.add(n, 'day')] *)
Definition add (n : Z) (x : t) : t :=
  match x with
  | Valid d => Valid (add_days n d)
  | Invalid => Invalid
  end.

(** [String(n).padStart(len, '0')] *)
Definition pad_start (len : nat) (s : string) : string :=
  string_of_list_ascii
    (replicate (len - String.length s) "0"%char) +:+ s.

Definition string_of_Z (n : Z) : string :=
  NilZero.string_of_int (Z.to_int n).

(** [x.format('YYYY-MM-DD')] *)
Definition format (x : t) : string :=
  match x with
  | Valid d =>
      pad_start 4 (string_of_Z (year d)) +:+ "-" +:+
      pad_start 2 (string_of_Z (month d)) +:+ "-" +:+
      pad_start 2 (string_of_Z (day d))
  | Invalid => "Invalid Date"
  end.

Definition digit_of (c : ascii) : option Z :=
  let n := Z.of_nat (nat_of_ascii c) in
  if (48 <=? n) && (n <=? 57) then Some (n - 48) else None.

Definition is_sep (c : ascii) : bool :=
  (Ascii.eqb c "-") || (Ascii.eqb c "/").

(** [new Date(y, m, d)]: a year below 100 counts from 1900, the month
    index carries into the year and the day of the month carries into the
    months. *)
Definition new_Date (y m d : Z) : date :=
  let y' := if (0 <=? y) && (y <? 100) then 1900 + y else y in
  add_days (d - 1) (mkDate (y' + m / 12) (m mod 12 + 1) 1).

(** [dayjs(text)] on a text of the layout [dddd-dd-dd] (the separators
    may be [-] or [/]): the fields go to [new Date(y, m - 1, d)].  This is
    the layout [format] writes and the only one the server passes.  The
    model reads no other layout: it answers [Invalid] for every other
    text, as dayjs does for a text that is no date. *)
Definition parse (s : string) : t :=
  match list_ascii_of_string s with
  | [y1; y2; y3; y4; s1; m1; m2; s2; d1; d2] =>
      match digit_of y1, digit_of y2, digit_of y3, digit_of y4,
            digit_of m1, digit_of m2, digit_of d1, digit_of d2 with
      | Some a, Some b, Some c, Some e, Some f, Some g, Some h, Some i =>
          if is_sep s1 && is_sep s2
          then Valid (new_Date (1000 * a + 100 * b + 10 * c + e)
                               (10 * f + g - 1) (10 * h + i))
          else Invalid
      | _, _, _, _, _, _, _, _ => Invalid
      end
  | _ => Invalid
  end.

(** A calendar date as the server's clock can give it. *)
Definition valid_date (d : date) : Prop :=
  100 <= year d <= 9999 /\ 1 <= month d <= 12 /\
  1 <= day d <= days_in_month (year d) (month d).

End Dayjs.

(* ===================================================================== *)
(** * The SQLite store *)
(* ===================================================================== *)

(** Table [questions]: [id INTEGER PRIMARY KEY AUTOINCREMENT],
    [title TEXT NOT NULL], [created_at TEXT NOT NULL],
    [notes TEXT DEFAULT '']. *)
Record question := mkQuestion {
  q_id : Z;
  q_title : string;
  q_created_at : string;
  q_notes : string
}.

(** Table [schedule]: [id INTEGER PRIMARY KEY AUTOINCREMENT],
    [question_id INTEGER NOT NULL], [due_date TEXT NOT NULL],
    [completed INTEGER DEFAULT 0]. *)
Record schedule_row := mkSchedule {
  s_id : Z;
  s_question_id : Z;
  s_due_date : string;
  s_completed : Z
}.

(** The database: the rows of the two tables in insertion order and, for
    each table, the largest row id handed out so far (the AUTOINCREMENT
    counter kept in [sqlite_sequence]). *)
Record db := mkDb {
  questions : list question;
  schedule : list schedule_row;
  questions_seq : Z;
  schedule_seq : Z
}.

Definition empty_db : db := mkDb [] [] 0 0.

(** ** Statements that may throw *)

(** A statement either returns or throws with a message. *)
Inductive outcome (A : Type) : Type :=
| Ok (a : A)
| Throw (msg : string).
Arguments Ok {A} a.
Arguments Throw {A} msg.

(** A computation over the database.  The first component of the state is
    the fault plan of a run: [Some n] lets [n] more writes through and makes
    the write after them throw, with the database as it was before that
    write; [None] lets every write through. *)
Definition M (A : Type) : Type :=
  option nat -> db -> outcome A * option nat * db.

Definition ret {A} (a : A) : M A := fun f s => (Ok a, f, s).

Definition bind {A B} (k : A -> M B) (m : M A) : M B :=
  fun f s =>
    match m f s with
    | (Ok a, f', s') => k a f' s'
    | (Throw e, f', s') => (Throw e, f', s')
    end.

Definition throw {A} (msg : string) : M A := fun f s => (Throw msg, f, s).

(** The notations [x ← m; k] and [m;; k] of stdpp's monads. *)
#[global] Instance M_ret : MRet M := @ret.
#[global] Instance M_bind : MBind M := @bind.

(** [try { m } catch (error) { h error }] *)
Definition try_catch {A} (m : M A) (h : string -> M A) : M A :=
  fun f s =>
    match m f s with
    | (Ok a, f', s') => (Ok a, f', s')
    | (Throw e, f', s') => h e f' s'
    end.

(** [db.transaction(fn)()]: BEGIN, run [fn], COMMIT; when [fn] throws,
    ROLLBACK to the database at BEGIN and throw again. *)
Definition transaction {A} (m : M A) : M A :=
  fun f s =>
    match m f s with
    | (Ok a, f', s') => (Ok a, f', s')
    | (Throw e, f', _) => (Throw e, f', s)
    end.

Definition io_error : string := "SQLITE_IOERR: disk I/O error".
Definition fk_error : string := "FOREIGN KEY constraint failed".
Definition not_null_error : string :=
  "NOT NULL constraint failed: questions.title".

(** Every writing statement passes here first. *)
Definition write_gate : M unit :=
  fun f s =>
    match f with
    | Some O => (Throw io_error, None, s)
    | Some (S n) => (Ok tt, Some n, s)
    | None => (Ok tt, None, s)
    end.

Definition get_db : M db := fun f s => (Ok s, f, s).
Definition put_db (s : db) : M unit := fun f _ => (Ok tt, f, s).

(** A run in which no write fails. *)
Definition run {A} (m : M A) (s : db) : outcome A * db :=
  let '(r, _, s') := m None s in (r, s').

(** A run in which the write number [n] (counted from 0) fails. *)
Definition run_failing {A} (n : nat) (m : M A) (s : db) : outcome A * db :=
  let '(r, _, s') := m (Some n) s in (r, s').

(** ** The prepared statements *)

Section Server.

(** [db.pragma('foreign_keys = ON')]: absent from the first copy of the
    server ([false]), present in the second ([true]). *)
Variable foreign_keys : bool.

Definition has_question (id : Z) (s : db) : bool :=
  existsb (fun q => q_id q =? id) (questions s).

(** [INSERT INTO questions (title, created_at) VALUES (?, ?)], returning
    [info.lastInsertRowid].  The title comes from the request body:
    [None] stands for a body without one, which the NOT NULL column
    refuses. *)
Definition insert_question (title : option string) (created_at : string)
  : M Z :=
  match title with
  | None => throw not_null_error
  | Some t =>
      write_gate;;
      s ← get_db;
      let id := questions_seq s + 1 in
      put_db (mkDb (questions s ++ [mkQuestion id t created_at ""])
                   (schedule s) id (schedule_seq s));;
      ret id
  end.

(** [INSERT INTO schedule (question_id, due_date) VALUES (?, ?)] *)
Definition insert_schedule (question_id : Z) (due_date : string) : M unit :=
  write_gate;;
  s ← get_db;
  if foreign_keys && negb (has_question question_id s)
  then throw fk_error
  else
    let id := schedule_seq s + 1 in
    put_db (mkDb (questions s)
                 (schedule s ++ [mkSchedule id question_id due_date 0])
                 (questions_seq s) id).

(** [NOT completed] on an INTEGER *)
Definition sql_not (c : Z) : Z := if c =? 0 then 1 else 0.

Definition toggle_row (id : Z) (r : schedule_row) : schedule_row :=
  if s_id r =? id
  then mkSchedule (s_id r) (s_question_id r) (s_due_date r)
                  (sql_not (s_completed r))
  else r.

(** The number of rows a WHERE clause selects: [result.changes]. *)
Definition changes {A} (p : A -> bool) (l : list A) : Z :=
  Z.of_nat (length (List.filter p l)).

(** [UPDATE schedule SET completed = NOT completed WHERE id = ?] *)
Definition update_toggle (id : Z) : M Z :=
  write_gate;;
  s ← get_db;
  put_db (mkDb (questions s) (map (toggle_row id) (schedule s))
               (questions_seq s) (schedule_seq s));;
  ret (changes (fun r => s_id r =? id) (schedule s)).

Definition set_notes_row (id : Z) (notes : string) (q : question)
  : question :=
  if q_id q =? id
  then mkQuestion (q_id q) (q_title q) (q_created_at q) notes
  else q.

(** [UPDATE questions SET notes = ? WHERE id = ?] *)
Definition update_notes (notes : string) (id : Z) : M Z :=
  write_gate;;
  s ← get_db;
  put_db (mkDb (map (set_notes_row id notes) (questions s)) (schedule s)
               (questions_seq s) (schedule_seq s));;
  ret (changes (fun q => q_id q =? id) (questions s)).

(** ** The spaced-repetition calculator *)

Definition INTERVALS : list Z := [1; 3; 6; 12; 24; 48].

(** The body of [for (const daysToAdd of INTERVALS)], with the cursor
    [currentDate] threaded through the iterations. *)
Fixpoint schedule_loop (questionId : Z) (currentDate : Dayjs.t)
         (intervals : list Z) : M unit :=
  match intervals with
  | [] => ret tt
  | daysToAdd :: rest =>
      let currentDate := Dayjs.add daysToAdd currentDate in
      insert_schedule questionId (Dayjs.format currentDate);;
      schedule_loop questionId currentDate rest
  end.

Definition generateSchedule (questionId : Z) (startDate : string) : M unit :=
  let currentDate := Dayjs.parse startDate in
  transaction (schedule_loop questionId currentDate INTERVALS).

(** ** The handlers *)

(** What a handler sends: [res.json(...)], or [res.status(n).json(...)]. *)
Inductive response :=
| Created (id : Z)                      (* { id, success: true } *)
| Success                               (* { success: true } *)
| Failure (status : Z) (error : string) (* status n, { error } *).

(** [POST /api/questions]; [now] is the day the clock [dayjs()] shows. *)
Definition post_question (title : option string) (now : Dayjs.date)
  : M response :=
  let today := Dayjs.format (Dayjs.Valid now) in
  try_catch
    (id ← insert_question title today;
     generateSchedule id today;;
     ret (Created id))
    (fun error => ret (Failure 500 error)).

(** One row of the join of [GET /api/schedule]:
    [s.id, s.due_date, s.completed, q.title, q.id as question_id,
    q.notes]. *)
Record task := mkTask {
  t_id : Z;
  t_due_date : string;
  t_completed : Z;
  t_title : string;
  t_question_id : Z;
  t_notes : string
}.

(** [SELECT ... FROM schedule s JOIN questions q ON s.question_id = q.id
    WHERE s.due_date = ?] *)
Definition select_tasks (targetDate : string) (s : db) : list task :=
  flat_map
    (fun r =>
       if String.eqb (s_due_date r) targetDate
       then map (fun q => mkTask (s_id r) (s_due_date r) (s_completed r)
                                 (q_title q) (q_id q) (q_notes q))
                (List.filter (fun q => s_question_id r =? q_id q)
                             (questions s))
       else [])
    (schedule s).

(** [date || today]: an absent or empty text is falsy. *)
Definition or_default (date : option string) (today : string) : string :=
  match date with
  | Some d => if String.eqb d "" then today else d
  | None => today
  end.

(** [GET /api/schedule]; [date] is [req.query.date]. *)
Definition get_schedule (date : option string) (now : Dayjs.date) (s : db)
  : list task :=
  let targetDate := or_default date (Dayjs.format (Dayjs.Valid now)) in
  select_tasks targetDate s.

(** [POST /api/schedule/:id/toggle]: no [try], and the result of
    [stmt.run] is dropped.  [id] is the integer the path segment writes
    (a segment that writes none matches no row, like an id that is
    absent). *)
Definition post_toggle (id : Z) : M response :=
  update_toggle id;;
  ret Success.

(** [SELECT due_date, COUNT( * ) as count FROM schedule
    WHERE completed = 0 GROUP BY due_date]: one row per due date found
    among the incomplete rows, with the number of those rows.  SQL does
    not fix the order of the groups; nothing below depends on it. *)
Definition incomplete (s : db) : list schedule_row :=
  List.filter (fun r => s_completed r =? 0) (schedule s).

Definition count_due (d : string) (rows : list schedule_row) : nat :=
  length (List.filter (fun r => String.eqb (s_due_date r) d) rows).

Definition get_calendar_stats (s : db) : list (string * nat) :=
  map (fun d => (d, count_due d (incomplete s)))
      (remove_dups (map s_due_date (incomplete s))).

(** [PUT /api/questions/:id/notes], first copy: the result of [stmt.run]
    is dropped. *)
Definition put_notes_1 (id : Z) (notes : option string) : M response :=
  try_catch
    (update_notes (or_default notes "") id;;
     ret Success)
    (fun error => ret (Failure 500 error)).

(** [PUT /api/questions/:id/notes], second copy: [result.changes === 0]
    answers 404. *)
Definition put_notes_2 (id : Z) (notes : option string) : M response :=
  try_catch
    (n ← update_notes (or_default notes "") id;
     if n =? 0 then ret (Failure 404 "Question not found")
     else ret Success)
    (fun error => ret (Failure 500 error)).

(** [GET /api/questions/:id/notes]: [result?.notes || ''] *)
Definition get_notes (id : Z) (s : db) : string :=
  match List.find (fun q => q_id q =? id) (questions s) with
  | Some q => q_notes q
  | None => ""
  end.

End Server.

(* ===================================================================== *)
(** * JSON texts and the notes codec of the client *)
(* ===================================================================== *)

Module Json.

(** A JavaScript string: its UTF-16 code units. *)
Definition jsstring := list N.

Definition of_string (s : string) : jsstring :=
  map (fun c => N.of_nat (nat_of_ascii c)) (list_ascii_of_string s).

#[local] Set Warnings "-register-all".

(** A value [JSON.parse] returns.  A number is kept as the decimal
    [m * 10^e] its text denotes; the double nearest to it is not
    computed, only whether that double is zero ([rounds_to_zero]). *)
Inductive json :=
| JNull
| JBool (b : bool)
| JNumber (m : Z) (e : Z)
| JString (s : jsstring)
| JArray (elements : list json)
| JObject (members : list (jsstring * json)).

(** ** JSON.stringify on strings: QuoteJSONString *)

Definition is_leading (c : N) : bool := ((55296 <=? c) && (c <=? 56319))%N.
Definition is_trailing (c : N) : bool := ((56320 <=? c) && (c <=? 57343))%N.

Definition hex_digit (n : N) : N :=
  (if n <? 10 then 48 + n else 87 + n)%N.

(** [\uXXXX], lower-case hexadecimal *)
Definition unicode_escape (c : N) : list N :=
  [92; 117; hex_digit (c / 4096 mod 16); hex_digit (c / 256 mod 16);
   hex_digit (c / 16 mod 16); hex_digit (c mod 16)]%N.

(** One code point that is not a surrogate pair. *)
Definition quote_unit (c : N) : list N :=
  (if c =? 8 then [92; 98]
   else if c =? 9 then [92; 116]
   else if c =? 10 then [92; 110]
   else if c =? 12 then [92; 102]
   else if c =? 13 then [92; 114]
   else if c =? 34 then [92; 34]
   else if c =? 92 then [92; 92]
   else if (c <? 32) || is_leading c || is_trailing c then unicode_escape c
   else [c])%N.

(** The code points of the string in turn: a leading surrogate followed
    by a trailing one is a pair and is copied; every other unit is quoted
    on its own. *)
Fixpoint quote_chars (s : jsstring) : list N :=
  match s with
  | [] => []
  | c :: r =>
      match r with
      | d :: r' =>
          if is_leading c && is_trailing d
          then c :: d :: quote_chars r'
          else quote_unit c ++ quote_chars r
      | [] => quote_unit c
      end
  end.

Definition quote (s : jsstring) : list N :=
  (34 :: quote_chars s ++ [34])%N.

(** ** JSON.parse *)

(** The result of a parsing function: a value and the rest of the text,
    a syntax error, or the recursion budget spent. *)
Inductive presult (A : Type) : Type :=
| POk (a : A) (rest : list N)
| PErr
| PFuel.
Arguments POk {A} a rest.
Arguments PErr {A}.
Arguments PFuel {A}.

Definition is_ws (c : N) : bool :=
  ((c =? 32) || (c =? 9) || (c =? 10) || (c =? 13))%N.

Fixpoint skip_ws (s : list N) : list N :=
  match s with
  | c :: r => if is_ws c then skip_ws r else s
  | [] => []
  end.

Definition hex_val (c : N) : option N :=
  (if (48 <=? c) && (c <=? 57) then Some (c - 48)
   else if (97 <=? c) && (c <=? 102) then Some (c - 87)
   else if (65 <=? c) && (c <=? 70) then Some (c - 55)
   else None)%N.

Definition simple_escape (c : N) : option N :=
  (if c =? 34 then Some 34
   else if c =? 92 then Some 92
   else if c =? 47 then Some 47
   else if c =? 98 then Some 8
   else if c =? 102 then Some 12
   else if c =? 110 then Some 10
   else if c =? 114 then Some 13
   else if c =? 116 then Some 9
   else None)%N.

Definition cons_char (c : N) (r : presult jsstring) : presult jsstring :=
  match r with
  | POk s rest => POk (c :: s) rest
  | PErr => PErr
  | PFuel => PFuel
  end.

(** The characters of a string after its opening quote, up to and
    including the closing quote. *)
Fixpoint parse_chars (s : list N) : presult jsstring :=
  match s with
  | [] => PErr
  | c :: r =>
      if (c =? 34)%N then POk [] r
      else if (c =? 92)%N then
        match r with
        | [] => PErr
        | e :: r1 =>
            if (e =? 117)%N then
              match r1 with
              | h1 :: h2 :: h3 :: h4 :: r2 =>
                  match hex_val h1, hex_val h2, hex_val h3, hex_val h4 with
                  | Some a, Some b, Some c', Some d =>
                      cons_char (4096 * a + 256 * b + 16 * c' + d)%N
                                (parse_chars r2)
                  | _, _, _, _ => PErr
                  end
              | _ => PErr
              end
            else
              match simple_escape e with
              | Some u => cons_char u (parse_chars r1)
              | None => PErr
              end
        end
      else if (c <? 32)%N then PErr
      else cons_char c (parse_chars r)
  end.

Definition is_digit (c : N) : bool := ((48 <=? c) && (c <=? 57))%N.

(** The longest run of digits at the head of the text, as the number it
    writes on top of [acc], with the count of digits read. *)
Fixpoint digits (s : list N) (acc : Z) (n : Z) : Z * Z * list N :=
  match s with
  | c :: r =>
      if is_digit c then digits r (10 * acc + Z.of_N (c - 48)) (n + 1)
      else (acc, n, s)
  | [] => (acc, n, s)
  end.

(** [int]: a single [0], or a digit from 1 to 9 and more digits. *)
Definition parse_int (s : list N) : presult Z :=
  match s with
  | c :: r =>
      if (c =? 48)%N then POk 0 r
      else if is_digit c then
        let '(m, _, r') := digits s 0 0 in POk m r'
      else PErr
  | [] => PErr
  end.

(** [frac]: nothing, or a point and at least one digit.  Returns the
    mantissa extended by the digits and their count. *)
Definition parse_frac (m : Z) (s : list N) : presult (Z * Z) :=
  match s with
  | c :: r =>
      if (c =? 46)%N then
        let '(m', n, r') := digits r m 0 in
        if n =? 0 then PErr else POk (m', n) r'
      else POk (m, 0) s
  | [] => POk (m, 0) s
  end.

(** [exp]: nothing, or [e] or [E], a sign or none, at least one digit. *)
Definition parse_exp (s : list N) : presult Z :=
  match s with
  | c :: r =>
      if ((c =? 101) || (c =? 69))%N then
        let '(neg, r1) :=
          match r with
          | g :: r1 =>
              if (g =? 45)%N then (true, r1)
              else if (g =? 43)%N then (false, r1)
              else (false, r)
          | [] => (false, r)
          end in
        let '(x, n, r2) := digits r1 0 0 in
        if n =? 0 then PErr else POk (if neg then - x else x) r2
      else POk 0 s
  | [] => POk 0 s
  end.

Definition parse_number (s : list N) : presult json :=
  let '(neg, s1) :=
    match s with
    | c :: r => if (c =? 45)%N then (true, r) else (false, s)
    | [] => (false, s)
    end in
  match parse_int s1 with
  | POk m s2 =>
      match parse_frac m s2 with
      | POk (m', n) s3 =>
          match parse_exp s3 with
          | POk x s4 => POk (JNumber (if neg then - m' else m') (x - n)) s4
          | PErr => PErr
          | PFuel => PFuel
          end
      | PErr => PErr
      | PFuel => PFuel
      end
  | PErr => PErr
  | PFuel => PFuel
  end.

(** [strip_prefix p s]: the text after the literal [p]. *)
Fixpoint strip_prefix (p s : list N) : option (list N) :=
  match p, s with
  | [], _ => Some s
  | a :: p', b :: s' => if (a =? b)%N then strip_prefix p' s' else None
  | _ :: _, [] => None
  end.

Definition parse_literal (lit : string) (v : json) (s : list N)
  : presult json :=
  match strip_prefix (of_string lit) s with
  | Some r => POk v r
  | None => PErr
  end.

(** A value, with the white space before it; the elements of an array
    after its bracket; the members of an object after its brace.  Every
    call spends one unit of [fuel]. *)
Fixpoint parse_value (fuel : nat) (s : list N) : presult json :=
  match fuel with
  | O => PFuel
  | S fuel =>
      match skip_ws s with
      | [] => PErr
      | c :: r =>
          if (c =? 34)%N then
            match parse_chars r with
            | POk str r' => POk (JString str) r'
            | PErr => PErr
            | PFuel => PFuel
            end
          else if (c =? 91)%N then
            match skip_ws r with
            | d :: r' =>
                if (d =? 93)%N then POk (JArray []) r'
                else parse_elements fuel r []
            | [] => PErr
            end
          else if (c =? 123)%N then
            match skip_ws r with
            | d :: r' =>
                if (d =? 125)%N then POk (JObject []) r'
                else parse_members fuel r []
            | [] => PErr
            end
          else if (c =? 110)%N then parse_literal "null" JNull (c :: r)
          else if (c =? 116)%N then parse_literal "true" (JBool true) (c :: r)
          else if (c =? 102)%N then
            parse_literal "false" (JBool false) (c :: r)
          else parse_number (c :: r)
      end
  end
with parse_elements (fuel : nat) (s : list N) (acc : list json)
  : presult json :=
  match fuel with
  | O => PFuel
  | S fuel =>
      match parse_value fuel s with
      | POk v r =>
          match skip_ws r with
          | c :: r' =>
              if (c =? 44)%N then parse_elements fuel r' (acc ++ [v])
              else if (c =? 93)%N then POk (JArray (acc ++ [v])) r'
              else PErr
          | [] => PErr
          end
      | PErr => PErr
      | PFuel => PFuel
      end
  end
with parse_members (fuel : nat) (s : list N) (acc : list (jsstring * json))
  : presult json :=
  match fuel with
  | O => PFuel
  | S fuel =>
      match skip_ws s with
      | q :: r =>
          if (q =? 34)%N then
            match parse_chars r with
            | POk key r1 =>
                match skip_ws r1 with
                | c :: r2 =>
                    if (c =? 58)%N then
                      match parse_value fuel r2 with
                      | POk v r3 =>
                          match skip_ws r3 with
                          | d :: r4 =>
                              if (d =? 44)%N
                              then parse_members fuel r4 (acc ++ [(key, v)])
                              else if (d =? 125)%N
                              then POk (JObject (acc ++ [(key, v)])) r4
                              else PErr
                          | [] => PErr
                          end
                      | PErr => PErr
                      | PFuel => PFuel
                      end
                    else PErr
                | [] => PErr
                end
            | PErr => PErr
            | PFuel => PFuel
            end
          else PErr
      | [] => PErr
      end
  end.

(** The whole text is one value between white space. *)
Definition parse_text (fuel : nat) (text : jsstring) : presult json :=
  match parse_value fuel text with
  | POk v r =>
      match skip_ws r with
      | [] => POk v []
      | _ :: _ => PErr
      end
  | PErr => PErr
  | PFuel => PFuel
  end.

(** [JSON.parse(text)]; a text that is not JSON throws SyntaxError.  The
    budget is never spent (see [parse_text_fuel]). *)
Definition JSON_parse (text : jsstring) : outcome json :=
  match parse_text (2 * length text + 2) text with
  | POk v _ => Ok v
  | _ => Throw "SyntaxError"
  end.

(** ** Reading a property and truthiness *)

(** The last member with the key, as [JSON.parse] keeps the last of
    duplicate keys. *)
Fixpoint lookup_key (k : jsstring) (members : list (jsstring * json))
  : option json :=
  match members with
  | [] => None
  | (k', v) :: rest =>
      match lookup_key k rest with
      | Some v' => Some v'
      | None => if decide (k' = k) then Some v else None
      end
  end.

(** [parsed.key] for one of the two keys of the payload: [None] is
    [undefined]; on [null] the access throws TypeError. *)
Definition get_prop (parsed : json) (key : string)
  : outcome (option json) :=
  match parsed with
  | JNull => Throw "TypeError"
  | JObject members => Ok (lookup_key (of_string key) members)
  | _ => Ok None
  end.

(** The double nearest to [m * 10^e] is zero. *)
Definition rounds_to_zero (m e : Z) : bool :=
  if m =? 0 then true
  else if 0 <=? e then false
  else Z.abs m * 2 ^ 1075 <=? 10 ^ (- e).

Definition truthy (v : json) : bool :=
  match v with
  | JNull => false
  | JBool b => b
  | JNumber m e => negb (rounds_to_zero m e)
  | JString s => match s with [] => false | _ => true end
  | JArray _ | JObject _ => true
  end.

(** [x || ''] *)
Definition or_empty (x : option json) : json :=
  match x with
  | Some v => if truthy v then v else JString []
  | None => JString []
  end.

End Json.

Module Client.
Import Json.

(** The notes payload [{ bruteForce, optimized }]. *)
Record notes := mkNotes { bruteForce : json; optimized : json }.

Definition parseNotes (notesString : jsstring) : notes :=
  match notesString with
  | [] => mkNotes (JString []) (JString [])
  | _ :: _ =>
      let fallback := mkNotes (JString notesString) (JString []) in
      match JSON_parse notesString with
      | Ok parsed =>
          match get_prop parsed "bruteForce" with
          | Ok b =>
              match get_prop parsed "optimized" with
              | Ok o => mkNotes (or_empty b) (or_empty o)
              | Throw _ => fallback
              end
          | Throw _ => fallback
          end
      | Throw _ => fallback
      end
  end.

(** [JSON.stringify(notesData)] of [saveNotes], for a payload whose two
    fields hold strings, as the text areas give them:
    [{"bruteForce":"...","optimized":"..."}]. *)
Definition stringify_notes (bf opt : jsstring) : jsstring :=
  of_string "{" ++ quote (of_string "bruteForce") ++ of_string ":" ++
  quote bf ++ of_string "," ++ quote (of_string "optimized") ++
  of_string ":" ++ quote opt ++ of_string "}".

(** The member of a parsed value under a key, if it is an object that
    has one. *)
Definition member (v : json) (key : string) : option json :=
  match v with
  | JObject members => lookup_key (of_string key) members
  | _ => None
  end.

(** [statsMap] of [fetchData]: the rows of [GET /api/calendar-stats]
    written into an object, a later row over an earlier one. *)
Definition statsMap (rows : list (string * nat)) : gmap string nat :=
  fold_left (fun m item => <[item.1 := item.2]> m) rows ∅.

End Client.

(* ===================================================================== *)
(** * The store: vocabulary of the statements *)
(* ===================================================================== *)

(** The rows the generator is to add for a question: one per interval,
    numbered after [last_id], each due the interval after the one before. *)
Fixpoint due_rows (questionId last_id : Z) (cursor : Dayjs.t)
         (intervals : list Z) : list schedule_row :=
  match intervals with
  | [] => []
  | n :: rest =>
      mkSchedule (last_id + 1) questionId
                 (Dayjs.format (Dayjs.add n cursor)) 0
      :: due_rows questionId (last_id + 1) (Dayjs.add n cursor) rest
  end.

(** The fault plan lets the next [k] writes through. *)
Definition survives (k : nat) (plan : option nat) : Prop :=
  match plan with
  | Some n => (k <= n)%nat
  | None => True
  end.

(** The fault plan after [k] writes went through. *)
Definition after (k : nat) (plan : option nat) : option nat :=
  match plan with
  | Some n => Some (n - k)%nat
  | None => None
  end.

(** The database with one more question, and with more schedule rows. *)
Definition with_question (t created : string) (s : db) : db :=
  mkDb (questions s ++ [mkQuestion (questions_seq s + 1) t created ""])
       (schedule s) (questions_seq s + 1) (schedule_seq s).

Definition with_rows (rows : list schedule_row) (s : db) : db :=
  mkDb (questions s) (schedule s ++ rows) (questions_seq s)
       (schedule_seq s + Z.of_nat (length rows)).

(** The database after the two UPDATE statements. *)
Definition toggled (id : Z) (s : db) : db :=
  mkDb (questions s) (map (toggle_row id) (schedule s))
       (questions_seq s) (schedule_seq s).

Definition noted (id : Z) (notes : string) (s : db) : db :=
  mkDb (map (set_notes_row id notes) (questions s)) (schedule s)
       (questions_seq s) (schedule_seq s).

(** The [completed] flag of the review with the given id, if there is
    one. *)
Definition completed_of (id : Z) (s : db) : option Z :=
  option_map s_completed (List.find (fun r => s_id r =? id) (schedule s)).

(** The number of reviews due on [d] that are not complete. *)
Definition outstanding (d : string) (s : db) : nat :=
  length (List.filter
            (fun r => (s_completed r =? 0) && String.eqb (s_due_date r) d)
            (schedule s)).

(** The reviews due on [d], in table order. *)
Definition due_on (d : string) (s : db) : list schedule_row :=
  List.filter (fun r => String.eqb (s_due_date r) d) (schedule s).

(** What the schema and the statements keep true of the database: primary
    keys are unique and not above the AUTOINCREMENT counters, [completed]
    is 0 or 1, and every schedule row belongs to a question. *)
Record wf (s : db) : Prop := mkWf {
  wf_question_ids : NoDup (map q_id (questions s));
  wf_schedule_ids : NoDup (map s_id (schedule s));
  wf_question_seq : Forall (fun q => q_id q <= questions_seq s) (questions s);
  wf_schedule_seq : Forall (fun r => s_id r <= schedule_seq s) (schedule s);
  wf_completed :
    Forall (fun r => s_completed r = 0 \/ s_completed r = 1) (schedule s);
  wf_owner :
    Forall (fun r => has_question (s_question_id r) s = true) (schedule s)
}.

(** One request served by either copy of the server, under any fault
    plan. *)
Inductive step (s : db) : db -> Prop :=
| step_post_question fk title now plan r plan' s' :
    post_question fk title now plan s = (r, plan', s') -> step s s'
| step_post_toggle id plan r plan' s' :
    post_toggle id plan s = (r, plan', s') -> step s s'
| step_put_notes_1 id notes plan r plan' s' :
    put_notes_1 id notes plan s = (r, plan', s') -> step s s'
| step_put_notes_2 id notes plan r plan' s' :
    put_notes_2 id notes plan s = (r, plan', s') -> step s s'.

(** The databases the server can be in, starting from the empty one. *)
Inductive reachable : db -> Prop :=
| reachable_empty : reachable empty_db
| reachable_step s s' : reachable s -> step s s' -> reachable s'.

(** The day of the clock as the handlers write it. *)
Definition today_of (now : Dayjs.date) : string :=
  Dayjs.format (Dayjs.Valid now).

(** The database after a creation that went through. *)
Definition created (t : string) (now : Dayjs.date) (s : db) : db :=
  with_rows (due_rows (questions_seq s + 1) (schedule_seq s)
                      (Dayjs.parse (today_of now)) INTERVALS)
            (with_question t (today_of now) s).

(** ** Vocabulary of the calendar and of the codec *)

(** The number a list of digit characters writes. *)
Definition digits_value (cs : list ascii) : option Z :=
  fold_left (fun acc c =>
               match acc, Dayjs.digit_of c with
               | Some a, Some x => Some (10 * a + x)
               | _, _ => None
               end) cs (Some 0).

(** [pad_start len] of the number [n] is [len] digits that write [n]. *)
Definition pad_ok (len : nat) (n : nat) : bool :=
  let cs := list_ascii_of_string
              (Dayjs.pad_start len (Dayjs.string_of_Z (Z.of_nat n))) in
  (length cs =? len)%nat &&
  match digits_value cs with
  | Some v => v =? Z.of_nat n
  | None => false
  end.

Definition key_bruteForce : Json.jsstring := Json.of_string "bruteForce".
Definition key_optimized : Json.jsstring := Json.of_string "optimized".

(** A parser did well on [s]: it did not run out of budget, and a value
    it returned took at least [k] code units of [s]. *)
Definition good {A} (k : nat) (s : list N) (p : Json.presult A) : Prop :=
  match p with
  | Json.POk _ r => (length r + k <= length s)%nat
  | Json.PErr => True
  | Json.PFuel => False
  end.

(* ===================================================================== *)
(** * The calendar view of the client *)
(* ===================================================================== *)

(** [App.jsx], "Calendar Logic", and the operations of dayjs it calls on
    [currentMonth].  As with [Dayjs], only the calendar day of a dayjs
    object plays a part. *)
Module Calendar.
Import Dayjs.

(** The number of days from 1970-01-01 to the date: the time value of the
    JavaScript [Date], counted in days. *)
Definition days_from_civil (d : date) : Z :=
  let y := if month d <=? 2 then year d - 1 else year d in
  let era := y / 400 in
  let yoe := y mod 400 in
  let mp := (month d + 9) mod 12 in
  let doy := (153 * mp + 2) / 5 + day d - 1 in
  let doe := yoe * 365 + yoe / 4 - yoe / 100 + doy in
  era * 146097 + doe - 719468.

(** [x.day()]: [Date.prototype.getDay], from 0 for Sunday to 6 for
    Saturday; 1970-01-01 was a Thursday. *)
Definition weekday (d : date) : Z := (days_from_civil d + 4) mod 7.

(** [x.daysInMonth()] *)
Definition daysInMonth (d : date) : Z := days_in_month (year d) (month d).

(** [x.startOf('month')] *)
Definition startOf_month (d : date) : date := mkDate (year d) (month d) 1.

(** [x.date(n)]: [Date.prototype.setDate(n)], which carries a day out of
    the month into the months around it. *)
Definition set_date (n : Z) (d : date) : date :=
  add_days (n - 1) (mkDate (year d) (month d) 1).

(** [x.add(n, 'month')]: dayjs goes to the first of the month, sets the
    month index (which carries into the year) and then sets the day of the
    month to the one it had, or to the last of the new month if that is
    earlier. *)
Definition add_months (n : Z) (d : date) : date :=
  let mi := month d - 1 + n in
  let y := year d + mi / 12 in
  let m := mi mod 12 + 1 in
  mkDate y m (Z.min (day d) (days_in_month y m)).

(** [Array.from({ length: n }, (_, i) => f(i))] *)
Definition array_from (n : Z) (f : Z -> Z) : list Z :=
  map (fun i => f (Z.of_nat i)) (seq 0 (Z.to_nat n)).

(** [daysArray] and [emptySlots] *)
Definition daysArray (currentMonth : date) : list Z :=
  array_from (daysInMonth currentMonth) (fun i => i + 1).

Definition emptySlots (currentMonth : date) : list Z :=
  array_from (weekday (startOf_month currentMonth)) (fun i => i).

(** A cell of the grid: a blank before the first, or a day. *)
Inductive cell := Blank (i : Z) | Day (day : Z).

(** The children of the seven-column grid, in order: the blanks, then the
    days. *)
Definition grid (currentMonth : date) : list cell :=
  map Blank (emptySlots currentMonth) ++ map Day (daysArray currentMonth).

(** [dateStr] of the cell of a day *)
Definition dateStr (currentMonth : date) (day : Z) : string :=
  format (Valid (set_date day currentMonth)).

(** [changeMonth(val)] *)
Definition changeMonth (val : Z) (currentMonth : date) : date :=
  add_months val currentMonth.

(** [calendarStats[dateStr] || 0] *)
Definition count (calendarStats : gmap string nat) (dateStr : string) : nat :=
  default 0%nat (calendarStats !! dateStr).

(** [tasks.filter(t => !t.completed).length], the number shown in
    "You have N tasks remaining" *)
Definition remaining (tasks : list task) : nat :=
  length (List.filter (fun t => t_completed t =? 0) tasks).

End Calendar.

(* ===================================================================== *)
(** * The notes editor of the client *)
(* ===================================================================== *)

Module Editor.
Import Json Client.

(** [toggleNotes], on the state [expandedTasks]: a copy of the Set from
    which the id is deleted if it is there, and to which it is added if
    not. *)
Definition toggleNotes (taskId : Z) (expandedTasks : gset Z) : gset Z :=
  let newExpanded := expandedTasks in
  if decide (taskId ∈ newExpanded)
  then newExpanded ∖ {[taskId]}
  else newExpanded ∪ {[taskId]}.

(** The two fields of a task the editor reads. *)
Record row := mkRow { question_id : Z; row_notes : jsstring }.

(** The two names [handleNotesChange] is called with. *)
Inductive field := BruteForce | Optimized.

(** [tasks.find(t => t.question_id === questionId)?.notes || ''] *)
Definition stored_notes (questionId : Z) (tasks : list row) : jsstring :=
  match List.find (fun t => question_id t =? questionId) tasks with
  | Some t => row_notes t
  | None => []
  end.

(** [{ ...current, [field]: value }] *)
Definition with_field (current : notes) (f : field) (value : jsstring)
  : notes :=
  match f with
  | BruteForce => mkNotes (JString value) (optimized current)
  | Optimized => mkNotes (bruteForce current) (JString value)
  end.

(** [editingNotes[questionId] || parseNotes(...)] *)
Definition current_notes (questionId : Z) (tasks : list row)
           (editingNotes : gmap Z notes) : notes :=
  match editingNotes !! questionId with
  | Some n => n
  | None => parseNotes (stored_notes questionId tasks)
  end.

(** [handleNotesChange]: the update it gives to [setEditingNotes], applied
    to the state [prev]. *)
Definition handleNotesChange (questionId : Z) (f : field) (value : jsstring)
           (tasks : list row) (prev : gmap Z notes) : gmap Z notes :=
  let current := current_notes questionId tasks prev in
  <[questionId := with_field current f value]> prev.

(** The update of the Cancel button and of [saveNotes] after the save:
    [delete newState[questionId]]. *)
Definition drop_draft (questionId : Z) (prev : gmap Z notes)
  : gmap Z notes :=
  delete questionId prev.

End Editor.

(** ** Vocabulary of the further properties *)

(** A date of the calendar, whatever its year. *)
Definition cal_valid (d : Dayjs.date) : Prop :=
  1 <= Dayjs.month d <= 12 /\
  1 <= Dayjs.day d <= Dayjs.days_in_month (Dayjs.year d) (Dayjs.month d).

(** The days of [365 y + y/4 - y/100 + y/400]: the days of the years
    before year [y + 1] in the calendar that starts its years in March. *)
Definition year_days (y : Z) : Z := 365 * y + y / 4 - y / 100 + y / 400.

(** The reviews of a question, in table order. *)
Definition reviews_of (qid : Z) (s : db) : list schedule_row :=
  List.filter (fun r => s_question_id r =? qid) (schedule s).

(** The running sums of [INTERVALS]. *)
Definition offsets : list Z := [1; 4; 10; 22; 46; 94].

(** The due dates of an item created on the day [created_at] writes. *)
Definition due_dates (created_at : string) : list string :=
  map (fun k => Dayjs.format (Dayjs.add k (Dayjs.parse created_at))) offsets.

(** No review, or the six reviews at the offsets from [created_at]. *)
Definition none_or_six (q : question) (s : db) : Prop :=
  reviews_of (q_id q) s = []
  \/ map s_due_date (reviews_of (q_id q) s) = due_dates (q_created_at q).


(** The day number a text of a date writes, if it is one. *)
Definition day_number (text : string) : option Z :=
  match Dayjs.parse text with
  | Dayjs.Valid d => Some (Calendar.days_from_civil d)
  | Dayjs.Invalid => None
  end.

(** The due dates of an item created on a valid day. *)
Definition dates_from (now : Dayjs.date) : list string :=
  map (fun k => Dayjs.format (Dayjs.Valid (Dayjs.add_days k now))) offsets.

(* ===================================================================== *)
(** * Proof tools *)
(* ===================================================================== *)

Ltac unfold_M :=
  unfold mbind, M_bind, bind, mret, M_ret, ret, throw, get_db, put_db,
    write_gate in *.

Ltac parser_step :=
  cbn [Json.skip_ws Json.is_ws orb N.eqb Pos.eqb].

(* ===================================================================== *)
(** * Calendar lemmas *)
(* ===================================================================== *)

Section Calendar.
Import Dayjs.

(** Inside a month, [next_day] only moves the day of the month. *)
Lemma iter_next_day_in_month (n : nat) (y m k : Z) :
  1 <= k -> k + Z.of_nat n <= days_in_month y m ->
  Nat.iter n next_day (mkDate y m k) = mkDate y m (k + Z.of_nat n).
Proof.
  induction n as [|n IH]; intros Hk Hn.
  - cbn. f_equal; lia.
  - rewrite Nat.iter_succ, IH by lia. unfold next_day; cbn [year month day].
    destruct (Z.ltb_spec (k + Z.of_nat n) (days_in_month y m)); [|lia].
    f_equal; lia.
Qed.

(** Adding days one interval after the other adds their sum: the cursor
    of the schedule generator is at the cumulative offset. *)
Lemma add_days_add_days (a b : Z) (d : date) :
  0 <= a -> 0 <= b -> add_days b (add_days a d) = add_days (a + b) d.
Proof.
  intros Ha Hb. unfold add_days.
  destruct (Z.leb_spec 0 a); [|lia]. destruct (Z.leb_spec 0 b); [|lia].
  destruct (Z.leb_spec 0 (a + b)); [|lia].
  rewrite Z2Nat.inj_add by lia.
  rewrite (Nat.add_comm (Z.to_nat a)). symmetry. apply Nat.iter_add.
Qed.

Lemma new_Date_valid (d : date) :
  valid_date d -> new_Date (year d) (month d - 1) (day d) = d.
Proof.
  intros (Hy & Hm & Hd). unfold new_Date.
  destruct (Z.ltb_spec (year d) 100); [lia|]. rewrite andb_false_r.
  rewrite Z.div_small, Z.mod_small by lia.
  unfold add_days. destruct (Z.leb_spec 0 (day d - 1)); [|lia].
  replace (month d - 1 + 1) with (month d) by lia.
  rewrite Z.add_0_r, iter_next_day_in_month by lia.
  rewrite Z2Nat.id by lia.
  destruct d; cbn [year month day]; f_equal; lia.
Qed.

(** [pad_start] writes every number below [10^len] as [len] digits:
    checked on each of them. *)
Lemma pad_ok_4_all : forallb (pad_ok 4) (seq 0 (Z.to_nat 10000)) = true.
Proof. vm_compute. reflexivity. Qed.

Lemma pad_ok_2_all : forallb (pad_ok 2) (seq 0 (Z.to_nat 100)) = true.
Proof. vm_compute. reflexivity. Qed.

Lemma pad_4 (n : Z) :
  0 <= n <= 9999 ->
  exists a b c e x1 x2 x3 x4,
    pad_start 4 (string_of_Z n) = String a (String b (String c (String e "")))
    /\ digit_of a = Some x1 /\ digit_of b = Some x2
    /\ digit_of c = Some x3 /\ digit_of e = Some x4
    /\ 1000 * x1 + 100 * x2 + 10 * x3 + x4 = n.
Proof.
  intros Hn.
  assert (Hok : pad_ok 4 (Z.to_nat n) = true).
  { pose proof pad_ok_4_all as H. rewrite forallb_forall in H.
    apply H, in_seq. lia. }
  unfold pad_ok in Hok. rewrite Z2Nat.id in Hok by lia.
  apply andb_true_iff in Hok as [Hlen Hval].
  apply Nat.eqb_eq in Hlen.
  rewrite <- (string_of_list_ascii_of_string (pad_start 4 (string_of_Z n))).
  destruct (list_ascii_of_string (pad_start 4 (string_of_Z n)))
    as [|a [|b [|c [|e [|? ?]]]]]; try discriminate Hlen.
  unfold digits_value in Hval. cbn [fold_left] in Hval.
  destruct (digit_of a) as [x1|] eqn:Ea; [|discriminate].
  destruct (digit_of b) as [x2|] eqn:Eb; [|discriminate].
  destruct (digit_of c) as [x3|] eqn:Ec; [|discriminate].
  destruct (digit_of e) as [x4|] eqn:Ee; [|discriminate].
  apply Z.eqb_eq in Hval.
  exists a, b, c, e, x1, x2, x3, x4. repeat split; try done; lia.
Qed.

Lemma pad_2 (n : Z) :
  0 <= n <= 99 ->
  exists a b x1 x2,
    pad_start 2 (string_of_Z n) = String a (String b "")
    /\ digit_of a = Some x1 /\ digit_of b = Some x2
    /\ 10 * x1 + x2 = n.
Proof.
  intros Hn.
  assert (Hok : pad_ok 2 (Z.to_nat n) = true).
  { pose proof pad_ok_2_all as H. rewrite forallb_forall in H.
    apply H, in_seq. lia. }
  unfold pad_ok in Hok. rewrite Z2Nat.id in Hok by lia.
  apply andb_true_iff in Hok as [Hlen Hval].
  apply Nat.eqb_eq in Hlen.
  rewrite <- (string_of_list_ascii_of_string (pad_start 2 (string_of_Z n))).
  destruct (list_ascii_of_string (pad_start 2 (string_of_Z n)))
    as [|a [|b [|? ?]]]; try discriminate Hlen.
  unfold digits_value in Hval. cbn [fold_left] in Hval.
  destruct (digit_of a) as [x1|] eqn:Ea; [|discriminate].
  destruct (digit_of b) as [x2|] eqn:Eb; [|discriminate].
  apply Z.eqb_eq in Hval.
  exists a, b, x1, x2. repeat split; try done; lia.
Qed.

Lemma days_in_month_le (y m : Z) : 28 <= days_in_month y m <= 31.
Proof.
  unfold days_in_month.
  repeat match goal with |- context [if ?b then _ else _] => destruct b end;
    lia.
Qed.

(** Reading back what [format] wrote gives the date again. *)
Lemma parse_format (d : date) :
  valid_date d -> parse (format (Valid d)) = Valid d.
Proof.
  intros Hv. pose proof Hv as (Hy & Hm & Hd).
  pose proof (days_in_month_le (year d) (month d)).
  destruct (pad_4 (year d)) as (a & b & c & e & x1 & x2 & x3 & x4 &
                                Ey & Ha & Hb & Hc & He & Vy); [lia|].
  destruct (pad_2 (month d)) as (f & g & x5 & x6 & Em & Hf & Hg & Vm); [lia|].
  destruct (pad_2 (day d)) as (h & i & x7 & x8 & Ed & Hh & Hi & Vd); [lia|].
  unfold format, parse. rewrite Ey, Em, Ed.
  change (list_ascii_of_string _)
    with [a; b; c; e; "-"%char; f; g; "-"%char; h; i].
  cbv iota beta.
  rewrite Ha, Hb, Hc, He, Hf, Hg, Hh, Hi.
  change (is_sep "-" && is_sep "-") with true. cbv iota.
  rewrite Vy, Vm, Vd. f_equal. apply new_Date_valid, Hv.
Qed.

Lemma append_not_empty (s1 s2 : string) :
  s2 <> ""%string -> s1 +:+ s2 <> ""%string.
Proof. destruct s1; [intros H; exact H | discriminate]. Qed.

(** The text [format] writes is never empty. *)
Lemma format_not_empty (x : t) : format x <> ""%string.
Proof.
  destruct x as [d|]; [|discriminate]. unfold format.
  apply append_not_empty. discriminate.
Qed.

End Calendar.

(* ===================================================================== *)
(** * The store: lemmas on the statements *)
(* ===================================================================== *)

Section StoreLemmas.
Variable fk : bool.

Lemma bind_ok {A B} (m : M A) (k : A -> M B) plan s a plan' s' :
  m plan s = (Ok a, plan', s') -> (m ≫= k) plan s = k a plan' s'.
Proof. intros E. unfold mbind, M_bind, bind. rewrite E. reflexivity. Qed.

Lemma bind_throw {A B} (m : M A) (k : A -> M B) plan s e plan' s' :
  m plan s = (Throw e, plan', s') ->
  (m ≫= k) plan s = (Throw e, plan', s').
Proof. intros E. unfold mbind, M_bind, bind. rewrite E. reflexivity. Qed.

Lemma has_question_with_rows id rows s :
  has_question id (with_rows rows s) = has_question id s.
Proof. reflexivity. Qed.

Lemma insert_schedule_ok qid due plan s :
  survives 1 plan ->
  (fk = true -> has_question qid s = true) ->
  insert_schedule fk qid due plan s =
    (Ok tt, after 1 plan,
     with_rows [mkSchedule (schedule_seq s + 1) qid due 0] s).
Proof.
  intros Hp Hq. unfold insert_schedule. unfold_M.
  assert (E : fk && negb (has_question qid s) = false).
  { destruct fk; [rewrite Hq by reflexivity|]; reflexivity. }
  destruct plan as [[|n]|]; cbn in Hp; try lia; cbn [after];
    rewrite E; unfold with_rows; cbn [length Z.of_nat];
    repeat f_equal; lia.
Qed.

Lemma insert_schedule_fault qid due s :
  insert_schedule fk qid due (Some O) s = (Throw io_error, None, s).
Proof. reflexivity. Qed.

Lemma after_after (a b : nat) plan :
  after b (after a plan) = after (a + b) plan.
Proof. destruct plan; cbn; f_equal; lia. Qed.

Lemma with_rows_app rows1 rows2 s :
  with_rows rows2 (with_rows rows1 s) = with_rows (rows1 ++ rows2) s.
Proof.
  unfold with_rows; cbn. rewrite <- app_assoc, length_app, Nat2Z.inj_add.
  f_equal. lia.
Qed.

(** The loop when the plan lets all its writes through. *)
Lemma schedule_loop_ok qid intervals : forall cursor plan s,
  survives (length intervals) plan ->
  (fk = true -> has_question qid s = true) ->
  schedule_loop fk qid cursor intervals plan s =
    (Ok tt, after (length intervals) plan,
     with_rows (due_rows qid (schedule_seq s) cursor intervals) s).
Proof.
  induction intervals as [|n rest IH]; intros cursor plan s Hp Hq.
  - cbn. unfold_M. unfold with_rows; cbn. rewrite app_nil_r, Z.add_0_r.
    destruct s, plan; cbn; repeat f_equal; lia.
  - cbn [schedule_loop due_rows]. unfold mbind, M_bind, bind.
    rewrite insert_schedule_ok; [|destruct plan; cbn in *; lia|exact Hq].
    rewrite IH; [|destruct plan; cbn in *; lia|exact Hq].
    rewrite after_after, with_rows_app. cbn [length Nat.add app].
    replace (schedule_seq (with_rows _ s)) with (schedule_seq s + 1)
      by (cbn; lia).
    reflexivity.
Qed.

(** The loop when the plan stops one of its writes. *)
Lemma schedule_loop_fault qid intervals : forall cursor n s,
  (n < length intervals)%nat ->
  (fk = true -> has_question qid s = true) ->
  exists s',
    schedule_loop fk qid cursor intervals (Some n) s
    = (Throw io_error, None, s').
Proof.
  induction intervals as [|i rest IH]; intros cursor n s Hn Hq.
  - cbn in Hn; lia.
  - cbn [schedule_loop]. unfold mbind, M_bind, bind.
    destruct n as [|n].
    + rewrite insert_schedule_fault. eauto.
    + rewrite insert_schedule_ok; [|cbn; lia|exact Hq].
      replace (after 1 (Some (S n))) with (Some n)
        by (cbn; f_equal; lia).
      apply IH; [cbn in Hn; lia|exact Hq].
Qed.

Lemma generateSchedule_ok qid startDate plan s :
  survives 6 plan ->
  (fk = true -> has_question qid s = true) ->
  generateSchedule fk qid startDate plan s =
    (Ok tt, after 6 plan,
     with_rows (due_rows qid (schedule_seq s) (Dayjs.parse startDate)
                         INTERVALS) s).
Proof.
  intros Hp Hq. unfold generateSchedule, transaction.
  rewrite schedule_loop_ok by assumption. reflexivity.
Qed.

(** A failed review insert rolls the whole loop back. *)
Lemma generateSchedule_fault qid startDate n s :
  (n < 6)%nat ->
  (fk = true -> has_question qid s = true) ->
  generateSchedule fk qid startDate (Some n) s = (Throw io_error, None, s).
Proof.
  intros Hn Hq. unfold generateSchedule, transaction.
  destruct (schedule_loop_fault qid INTERVALS (Dayjs.parse startDate) n s)
    as [s' E]; [exact Hn|exact Hq|].
  rewrite E. reflexivity.
Qed.

Lemma has_question_new t created s :
  has_question (questions_seq s + 1) (with_question t created s) = true.
Proof.
  unfold has_question, with_question; cbn [questions].
  rewrite existsb_app. cbn. rewrite Z.eqb_refl. apply orb_true_r.
Qed.

Lemma insert_question_ok t created plan s :
  survives 1 plan ->
  insert_question (Some t) created plan s
  = (Ok (questions_seq s + 1), after 1 plan, with_question t created s).
Proof.
  intros Hp. unfold insert_question. unfold_M.
  destruct plan as [[|n]|]; cbn in Hp; try lia; [|reflexivity].
  cbn [after]. replace (S n - 1)%nat with n by lia. reflexivity.
Qed.

(** ** POST /api/questions under every fault plan *)

Lemma post_question_no_title now plan s :
  post_question fk None now plan s
  = (Ok (Failure 500 not_null_error), plan, s).
Proof. reflexivity. Qed.

Lemma post_question_fault_item t now s :
  post_question fk (Some t) now (Some O) s
  = (Ok (Failure 500 io_error), None, s).
Proof. reflexivity. Qed.

Lemma post_question_fault_review t now n s :
  (n < 6)%nat ->
  post_question fk (Some t) now (Some (S n)) s
  = (Ok (Failure 500 io_error), None, with_question t (today_of now) s).
Proof.
  intros Hn. unfold post_question, try_catch. fold (today_of now).
  erewrite bind_ok by (apply insert_question_ok; cbn; lia).
  erewrite bind_throw; [reflexivity|].
  replace (after 1 (Some (S n))) with (Some n) by (cbn; f_equal; lia).
  apply generateSchedule_fault; [exact Hn|intros _; apply has_question_new].
Qed.

Lemma post_question_ok t now plan s :
  survives 7 plan ->
  post_question fk (Some t) now plan s
  = (Ok (Created (questions_seq s + 1)), after 7 plan, created t now s).
Proof.
  intros Hp. unfold post_question, try_catch. fold (today_of now).
  erewrite bind_ok
    by (apply insert_question_ok; destruct plan; cbn in *; lia).
  erewrite bind_ok; [unfold mret, M_ret, ret; reflexivity|].
  rewrite generateSchedule_ok;
    [|destruct plan; cbn in *; lia|intros _; apply has_question_new].
  rewrite after_after. reflexivity.
Qed.

End StoreLemmas.

(* ===================================================================== *)
(** * The invariant of the store *)
(* ===================================================================== *)

Section Invariant.

Lemma has_question_In id s :
  has_question id s = true <-> In id (map q_id (questions s)).
Proof.
  unfold has_question. rewrite existsb_exists, in_map_iff.
  split; intros (q & H1 & H2).
  - exists q. apply Z.eqb_eq in H2. auto.
  - exists q. split; [exact H2|]. apply Z.eqb_eq, H1.
Qed.

Lemma NoDup_app_fresh {A} (l k : list A) :
  NoDup l -> NoDup k -> (forall x, In x l -> In x k -> False) ->
  NoDup (l ++ k).
Proof.
  intros Hl Hk H. apply NoDup_app. split; [exact Hl|]. split; [|exact Hk].
  intros x Hx Hx'. apply list_elem_of_In in Hx, Hx'. eauto.
Qed.

Lemma wf_empty : wf empty_db.
Proof. split; cbn; constructor. Qed.

Lemma wf_with_question t c s : wf s -> wf (with_question t c s).
Proof.
  intros [H1 H2 H3 H4 H5 H6].
  split; cbn [with_question questions schedule questions_seq schedule_seq];
    try assumption.
  - rewrite map_app. apply NoDup_app_fresh; [assumption| |].
    + apply NoDup_singleton.
    + intros x Hx [<-|[]]. apply in_map_iff in Hx as (q & E & Hq).
      rewrite List.Forall_forall in H3. specialize (H3 q Hq).
      cbn [q_id] in E. lia.
  - apply List.Forall_app. split.
    + eapply List.Forall_impl; [|exact H3]. cbn. intros; lia.
    + repeat constructor. cbn. lia.
  - eapply List.Forall_impl; [|exact H6]. intros r Hr.
    apply has_question_In. apply has_question_In in Hr.
    unfold with_question; cbn [questions].
    rewrite map_app. apply in_or_app. left. exact Hr.
Qed.

Lemma due_rows_spec qid ivs : forall last cur,
  List.Forall (fun r => last < s_id r <= last + Z.of_nat (length ivs)
                        /\ s_completed r = 0 /\ s_question_id r = qid)
              (due_rows qid last cur ivs)
  /\ NoDup (map s_id (due_rows qid last cur ivs))
  /\ length (due_rows qid last cur ivs) = length ivs.
Proof.
  induction ivs as [|n ivs IH]; intros last cur; cbn [due_rows length map].
  - repeat constructor.
  - destruct (IH (last + 1) (Dayjs.add n cur)) as (F & N & L).
    split; [|split].
    + constructor; [cbn; lia|].
      eapply List.Forall_impl; [|exact F]. cbn. intros r (? & ? & ?). lia.
    + constructor; [|exact N]. cbn [s_id]. intros Hin.
      apply list_elem_of_In, in_map_iff in Hin as (r & E & Hr).
      rewrite List.Forall_forall in F. specialize (F r Hr). lia.
    + f_equal. exact L.
Qed.

Lemma wf_with_rows qid cur ivs s :
  wf s -> has_question qid s = true ->
  wf (with_rows (due_rows qid (schedule_seq s) cur ivs) s).
Proof.
  intros [H1 H2 H3 H4 H5 H6] Hq.
  destruct (due_rows_spec qid ivs (schedule_seq s) cur) as (F & N & L).
  rewrite List.Forall_forall in F.
  split; cbn [with_rows questions schedule questions_seq schedule_seq];
    try assumption.
  - rewrite map_app. apply NoDup_app_fresh; [assumption|assumption|].
    intros x Hx Hx'. apply in_map_iff in Hx as (r & E & Hr).
    apply in_map_iff in Hx' as (r' & E' & Hr').
    rewrite List.Forall_forall in H4. specialize (H4 r Hr).
    specialize (F r' Hr'). lia.
  - apply List.Forall_app. split.
    + eapply List.Forall_impl; [|exact H4]. cbn. intros; lia.
    + apply List.Forall_forall. intros r Hr. specialize (F r Hr). lia.
  - apply List.Forall_app. split; [exact H5|].
    apply List.Forall_forall. intros r Hr. specialize (F r Hr). tauto.
  - apply List.Forall_app. split; [exact H6|].
    apply List.Forall_forall. intros r Hr. specialize (F r Hr).
    destruct F as (_ & _ & ->). exact Hq.
Qed.

Lemma wf_created t now s : wf s -> wf (created t now s).
Proof.
  intros H. unfold created.
  change (schedule_seq s)
    with (schedule_seq (with_question t (today_of now) s)).
  apply wf_with_rows; [apply wf_with_question, H|].
  apply has_question_new.
Qed.

Lemma toggle_row_id id r : s_id (toggle_row id r) = s_id r.
Proof. unfold toggle_row. destruct (s_id r =? id); reflexivity. Qed.

Lemma toggle_row_question id r :
  s_question_id (toggle_row id r) = s_question_id r.
Proof. unfold toggle_row. destruct (s_id r =? id); reflexivity. Qed.

Lemma toggle_row_due id r : s_due_date (toggle_row id r) = s_due_date r.
Proof. unfold toggle_row. destruct (s_id r =? id); reflexivity. Qed.

Lemma wf_toggled id s : wf s -> wf (toggled id s).
Proof.
  intros [H1 H2 H3 H4 H5 H6].
  split; cbn [toggled questions schedule questions_seq schedule_seq];
    try assumption.
  - rewrite map_map. erewrite map_ext; [exact H2|].
    intros r. apply toggle_row_id.
  - apply List.Forall_map. eapply List.Forall_impl; [|exact H4].
    intros r Hr. rewrite toggle_row_id. exact Hr.
  - apply List.Forall_map. eapply List.Forall_impl; [|exact H5].
    intros r Hr. unfold toggle_row, sql_not.
    destruct (s_id r =? id); [|exact Hr]. cbn [s_completed].
    destruct (s_completed r =? 0); auto.
  - apply List.Forall_map. eapply List.Forall_impl; [|exact H6].
    intros r Hr. rewrite toggle_row_question. exact Hr.
Qed.

Lemma set_notes_row_id id notes q : q_id (set_notes_row id notes q) = q_id q.
Proof. unfold set_notes_row. destruct (q_id q =? id); reflexivity. Qed.

Lemma noted_ids id notes s :
  map q_id (questions (noted id notes s)) = map q_id (questions s).
Proof.
  cbn [noted questions]. rewrite map_map. apply map_ext.
  intros q. apply set_notes_row_id.
Qed.

Lemma wf_noted id notes s : wf s -> wf (noted id notes s).
Proof.
  intros [H1 H2 H3 H4 H5 H6]. split; try assumption.
  - rewrite noted_ids. exact H1.
  - cbn [noted questions questions_seq]. apply List.Forall_map.
    eapply List.Forall_impl; [|exact H3].
    intros q Hq. rewrite set_notes_row_id. exact Hq.
  - cbn [noted schedule]. eapply List.Forall_impl; [|exact H6].
    intros r Hr. apply has_question_In. rewrite noted_ids.
    apply has_question_In, Hr.
Qed.

(** ** What each handler leaves in the store *)

Lemma post_question_store fk title now plan s :
  let s' := (post_question fk title now plan s).2 in
  s' = s \/ exists t, title = Some t /\
                      (s' = with_question t (today_of now) s
                       \/ s' = created t now s).
Proof.
  destruct title as [t|]; [|left; reflexivity].
  destruct plan as [[|n]|].
  - left. reflexivity.
  - destruct (le_lt_dec 6 n) as [Hn|Hn].
    + rewrite post_question_ok by (cbn; lia). right. eauto.
    + rewrite post_question_fault_review by lia. right. eauto.
  - rewrite post_question_ok by exact I. right. eauto.
Qed.

Lemma post_toggle_run id plan s :
  plan <> Some O ->
  exists plan', post_toggle id plan s = (Ok Success, plan', toggled id s).
Proof.
  intros Hp. unfold post_toggle, update_toggle. unfold_M.
  destruct plan as [[|n]|]; [congruence| |]; eexists; reflexivity.
Qed.

Lemma post_toggle_fault id s :
  post_toggle id (Some O) s = (Throw io_error, None, s).
Proof. reflexivity. Qed.

Lemma update_notes_run notes id plan s :
  plan <> Some O ->
  exists plan',
    update_notes notes id plan s
    = (Ok (changes (fun q => q_id q =? id) (questions s)), plan',
       noted id notes s).
Proof.
  intros Hp. unfold update_notes. unfold_M.
  destruct plan as [[|n]|]; [congruence| |]; eexists; reflexivity.
Qed.

Lemma update_notes_fault notes id s :
  update_notes notes id (Some O) s = (Throw io_error, None, s).
Proof. reflexivity. Qed.

Lemma put_notes_1_store id notes plan s :
  let s' := (put_notes_1 id notes plan s).2 in
  s' = s \/ s' = noted id (or_default notes "") s.
Proof.
  unfold put_notes_1, try_catch.
  destruct (decide (plan = Some O)) as [->|Hp].
  - erewrite bind_throw by apply update_notes_fault. left. reflexivity.
  - destruct (update_notes_run (or_default notes "") id plan s Hp)
      as [plan' E].
    erewrite bind_ok by exact E. right. reflexivity.
Qed.

Lemma put_notes_2_store id notes plan s :
  let s' := (put_notes_2 id notes plan s).2 in
  s' = s \/ s' = noted id (or_default notes "") s.
Proof.
  unfold put_notes_2, try_catch.
  destruct (decide (plan = Some O)) as [->|Hp].
  - erewrite bind_throw by apply update_notes_fault. left. reflexivity.
  - destruct (update_notes_run (or_default notes "") id plan s Hp)
      as [plan' E].
    erewrite bind_ok by exact E. right.
    destruct (_ =? 0); reflexivity.
Qed.

Lemma step_wf s s' : wf s -> step s s' -> wf s'.
Proof.
  intros Hwf [fk title now plan r plan' s1 E|id plan r plan' s1 E
             |id notes plan r plan' s1 E|id notes plan r plan' s1 E].
  - pose proof (post_question_store fk title now plan s) as H.
    rewrite E in H. cbn in H.
    destruct H as [->|(t & _ & [->| ->])];
      auto using wf_with_question, wf_created.
  - destruct (decide (plan = Some O)) as [->|Hp].
    + rewrite post_toggle_fault in E. congruence.
    + destruct (post_toggle_run id plan s Hp) as [p E'].
      rewrite E' in E. injection E as _ _ <-. apply wf_toggled, Hwf.
  - pose proof (put_notes_1_store id notes plan s) as H.
    rewrite E in H. cbn in H. destruct H as [->| ->]; auto using wf_noted.
  - pose proof (put_notes_2_store id notes plan s) as H.
    rewrite E in H. cbn in H. destruct H as [->| ->]; auto using wf_noted.
Qed.

(** Every database the server reaches satisfies the invariant. *)
Lemma reachable_wf s : reachable s -> wf s.
Proof.
  induction 1 as [|s s' _ IH Hstep]; [apply wf_empty|].
  eapply step_wf; eassumption.
Qed.

End Invariant.

(* ===================================================================== *)
(** * The schedule generator *)
(* ===================================================================== *)

(** C1.  For every valid creation date [d], [generateSchedule] adds exactly
    six rows, in this order, due on [d] plus 1, 4, 10, 22, 46 and 94 days:
    the running sums of the interval table, each interval counted from the
    due date before it.  The rows are not complete, belong to the question
    and take the next six row ids. *)
Theorem generateSchedule_cumulative
        (fk : bool) (questionId : Z) (d : Dayjs.date) (s : db) :
  Dayjs.valid_date d ->
  (fk = true -> has_question questionId s = true) ->
  run (generateSchedule fk questionId (Dayjs.format (Dayjs.Valid d))) s
  = (Ok tt,
     mkDb (questions s)
          (schedule s ++
           map (fun '(i, k) =>
                  mkSchedule (schedule_seq s + i) questionId
                    (Dayjs.format (Dayjs.Valid (Dayjs.add_days k d))) 0)
               [(1, 1); (2, 4); (3, 10); (4, 22); (5, 46); (6, 94)])
          (questions_seq s) (schedule_seq s + 6)).
Proof.
  intros Hd Hq. unfold run.
  rewrite generateSchedule_ok by (cbn; auto).
  rewrite parse_format by exact Hd.
  unfold INTERVALS, with_rows. cbn [due_rows Dayjs.add map length].
  rewrite !add_days_add_days by lia.
  change (1 + 3 + 6 + 12 + 24 + 48) with 94.
  change (1 + 3 + 6 + 12 + 24) with 46.
  change (1 + 3 + 6 + 12) with 22.
  change (1 + 3 + 6) with 10.
  change (1 + 3) with 4.
  change (Z.of_nat 6) with 6.
  rewrite <- !Z.add_assoc.
  reflexivity.
Qed.

Lemma generateSchedule_cumulative_witness :
  run (generateSchedule true 1 "2024-01-01")
      (with_question "LC 43" "2024-01-01" empty_db)
  = (Ok tt,
     mkDb [mkQuestion 1 "LC 43" "2024-01-01" ""]
          [mkSchedule 1 1 "2024-01-02" 0; mkSchedule 2 1 "2024-01-05" 0;
           mkSchedule 3 1 "2024-01-11" 0; mkSchedule 4 1 "2024-01-23" 0;
           mkSchedule 5 1 "2024-02-16" 0; mkSchedule 6 1 "2024-04-04" 0]
          1 6).
Proof.
  apply (generateSchedule_cumulative
           true 1 (Dayjs.mkDate 2024 1 1)
           (with_question "LC 43" "2024-01-01" empty_db)).
  - unfold Dayjs.valid_date; cbn; lia.
  - reflexivity.
Defined.

(* ===================================================================== *)
(** * Creating an item *)
(* ===================================================================== *)

(** C2, as the specification states it, fails: when the second write of a
    creation (the first review insert) fails, the handler answers 500 and
    the question row stays in the store, without reviews. *)
Lemma createItem_leaves_item_on_failure :
  run_failing 1 (post_question true (Some "LC 43"%string)
                               (Dayjs.mkDate 2024 1 1)) empty_db
  = (Ok (Failure 500 io_error),
     mkDb [mkQuestion 1 "LC 43" "2024-01-01" ""] [] 1 0).
Proof. vm_compute. reflexivity. Qed.

(** C2, amended.  When one of the seven writes of a creation (number [n],
    from 0) fails, the handler answers 500 and the schedule table is as it
    was: the six review inserts are one transaction, so a partial review
    set is never left.  When the failing write is the question insert
    ([n = 0]) the questions table is as it was too; when it is one of the
    review inserts the question row inserted before stays. *)
Theorem createItem_failure
        (fk : bool) (t : string) (now : Dayjs.date) (n : nat) (s : db) :
  (n <= 6)%nat ->
  exists s',
    run_failing n (post_question fk (Some t) now) s
    = (Ok (Failure 500 io_error), s')
    /\ schedule s' = schedule s
    /\ schedule_seq s' = schedule_seq s
    /\ questions s' =
       match n with
       | O => questions s
       | S _ => questions s ++
                [mkQuestion (questions_seq s + 1) t (today_of now) ""]
       end.
Proof.
  intros Hn. unfold run_failing. destruct n as [|n].
  - rewrite post_question_fault_item. eauto.
  - rewrite post_question_fault_review by lia.
    eexists; split; [reflexivity|]. auto.
Qed.

Lemma createItem_failure_witness :
  exists s',
    run_failing 3 (post_question true (Some "LC 43"%string)
                                 (Dayjs.mkDate 2024 1 1)) empty_db
    = (Ok (Failure 500 io_error), s')
    /\ schedule s' = []
    /\ schedule_seq s' = 0
    /\ questions s' = [mkQuestion 1 "LC 43" "2024-01-01" ""].
Proof.
  apply (createItem_failure true "LC 43" (Dayjs.mkDate 2024 1 1) 3 empty_db).
  lia.
Defined.

(** C3, as the specification states it, fails: the empty title and a title
    of blanks are stored like any other, with their six reviews. *)
Lemma createItem_accepts_blank_title :
  run (post_question true (Some ""%string) (Dayjs.mkDate 2024 1 1)) empty_db
  = (Ok (Created 1), created "" (Dayjs.mkDate 2024 1 1) empty_db)
  /\ length (questions (created "" (Dayjs.mkDate 2024 1 1) empty_db)) = 1%nat
  /\ length (schedule (created "" (Dayjs.mkDate 2024 1 1) empty_db)) = 6%nat
  /\ run (post_question true (Some "   "%string) (Dayjs.mkDate 2024 1 1))
         empty_db
     = (Ok (Created 1), created "   " (Dayjs.mkDate 2024 1 1) empty_db).
Proof. vm_compute. repeat split; reflexivity. Qed.

(** C3, amended.  The handler does not look at the text of the title: for
    every title that is a string, the empty one and blank ones included, a
    creation in which no write fails answers with the new id and adds one
    question row with that title and six schedule rows.  Only a request
    without a title is refused, by the NOT NULL column: the handler answers
    500 and the store is unchanged. *)
Theorem createItem_any_title
        (fk : bool) (t : string) (now : Dayjs.date) (s : db) :
  run (post_question fk (Some t) now) s
  = (Ok (Created (questions_seq s + 1)), created t now s)
  /\ questions (created t now s)
     = questions s ++ [mkQuestion (questions_seq s + 1) t (today_of now) ""]
  /\ length (schedule (created t now s)) = (length (schedule s) + 6)%nat
  /\ run (post_question fk None now) s
     = (Ok (Failure 500 not_null_error), s).
Proof.
  unfold run. rewrite post_question_ok by exact I.
  rewrite post_question_no_title.
  repeat split. unfold created, with_rows. cbn [schedule].
  rewrite length_app. reflexivity.
Qed.

(* ===================================================================== *)
(** * Toggling a review *)
(* ===================================================================== *)

Lemma toggled_absent (id : Z) (s : db) :
  ~ In id (map s_id (schedule s)) -> toggled id s = s.
Proof.
  intros Hid. unfold toggled. destruct s as [qs rows qn sn]; cbn in *.
  f_equal. rewrite <- (map_id rows) at 2. apply map_ext_in.
  intros r Hr. unfold toggle_row.
  destruct (Z.eqb_spec (s_id r) id) as [E|]; [|reflexivity].
  exfalso. apply Hid. rewrite <- E. apply in_map, Hr.
Qed.

Lemma find_toggle (id : Z) (rows : list schedule_row) :
  List.find (fun r => s_id r =? id) (map (toggle_row id) rows)
  = option_map (toggle_row id) (List.find (fun r => s_id r =? id) rows).
Proof.
  induction rows as [|r rows IH]; [reflexivity|]. cbn [map List.find].
  rewrite toggle_row_id. destruct (s_id r =? id); [reflexivity|exact IH].
Qed.

(** For an id that is present, the statement flips the flag. *)
Lemma completed_of_toggled (id c : Z) (s : db) :
  completed_of id s = Some c ->
  completed_of id (toggled id s) = Some (sql_not c).
Proof.
  unfold completed_of, toggled; cbn [schedule]. rewrite find_toggle.
  destruct (List.find _ (schedule s)) as [r|] eqn:E; [|discriminate].
  cbn. intros [= <-]. apply find_some in E as [_ E].
  unfold toggle_row. rewrite E. reflexivity.
Qed.

Lemma completed_of_In (id c : Z) (s : db) :
  completed_of id s = Some c -> In id (map s_id (schedule s)).
Proof.
  unfold completed_of.
  destruct (List.find _ (schedule s)) as [r|] eqn:E; [|discriminate].
  intros _. apply find_some in E as [Hr E]. apply Z.eqb_eq in E.
  rewrite <- E. apply in_map, Hr.
Qed.

Lemma completed_of_flag (id c : Z) (s : db) :
  wf s -> completed_of id s = Some c -> c = 0 \/ c = 1.
Proof.
  intros Hwf. unfold completed_of.
  destruct (List.find _ (schedule s)) as [r|] eqn:E; [|discriminate].
  intros [= <-]. apply find_some in E as [Hr _].
  pose proof (wf_completed s Hwf) as H.
  rewrite List.Forall_forall in H. auto.
Qed.

Lemma sql_not_flag (c : Z) : c = 0 \/ c = 1 -> sql_not (sql_not c) = c.
Proof. intros [->| ->]; reflexivity. Qed.

Lemma toggled_twice (id : Z) (s : db) : wf s -> toggled id (toggled id s) = s.
Proof.
  intros Hwf. pose proof (wf_completed s Hwf) as H.
  unfold toggled. destruct s as [qs rows qn sn]; cbn in *. f_equal.
  rewrite map_map. rewrite <- (map_id rows) at 2. apply map_ext_in.
  intros r Hr. rewrite List.Forall_forall in H. specialize (H r Hr).
  unfold toggle_row. destruct (Z.eqb_spec (s_id r) id) as [E|E].
  - cbn [s_id]. destruct (Z.eqb_spec (s_id r) id); [|contradiction].
    cbn [s_question_id s_due_date s_completed]. rewrite sql_not_flag by exact H.
    destruct r; reflexivity.
  - destruct (Z.eqb_spec (s_id r) id); [contradiction|reflexivity].
Qed.

Lemma run_post_toggle (id : Z) (s : db) :
  run (post_toggle id) s = (Ok Success, toggled id s).
Proof. reflexivity. Qed.

(** C4: the code at an id that is not in the store.  The statement changes
    no row and the store is as before, but the handler drops
    [result.changes] and answers [{ success: true }], where the claim asks
    for a not-found failure.  For an id that is present the flag is
    flipped. *)
Theorem toggleReview_missing_id_answers_success (id : Z) (s : db) :
  ~ In id (map s_id (schedule s)) ->
  run (post_toggle id) s = (Ok Success, s).
Proof.
  intros Hid. rewrite run_post_toggle, toggled_absent by exact Hid.
  reflexivity.
Qed.

Lemma toggleReview_missing_id_answers_success_witness :
  run (post_toggle 999) (created "LC 43" (Dayjs.mkDate 2024 1 1) empty_db)
  = (Ok Success, created "LC 43" (Dayjs.mkDate 2024 1 1) empty_db).
Proof.
  apply (toggleReview_missing_id_answers_success
           999 (created "LC 43" (Dayjs.mkDate 2024 1 1) empty_db)).
  vm_compute. intros H. decompose [or] H; (discriminate || contradiction).
Defined.

(** C8.  For a review that is in the store, one toggle flips its flag and
    a second one gives the flag its first value again; the two together
    leave the whole store as it was. *)
Theorem toggleReview_twice (id c : Z) (s : db) :
  wf s ->
  completed_of id s = Some c ->
  let s1 := (run (post_toggle id) s).2 in
  let s2 := (run (post_toggle id) s1).2 in
  completed_of id s1 = Some (sql_not c)
  /\ sql_not c <> c
  /\ completed_of id s2 = Some c
  /\ s2 = s.
Proof.
  intros Hwf Hc. cbn zeta. rewrite !run_post_toggle. cbn [snd].
  rewrite toggled_twice by exact Hwf.
  repeat split; try assumption.
  - apply completed_of_toggled, Hc.
  - destruct (completed_of_flag id c s Hwf Hc) as [->| ->]; discriminate.
Qed.

Lemma toggleReview_twice_witness :
  let s := created "LC 43" (Dayjs.mkDate 2024 1 1) empty_db in
  let s1 := (run (post_toggle 2) s).2 in
  let s2 := (run (post_toggle 2) s1).2 in
  completed_of 2 s1 = Some (sql_not 0)
  /\ sql_not 0 <> 0
  /\ completed_of 2 s2 = Some 0
  /\ s2 = s.
Proof.
  apply (toggleReview_twice
           2 0 (created "LC 43" (Dayjs.mkDate 2024 1 1) empty_db)).
  - apply wf_created, wf_empty.
  - reflexivity.
Defined.

(* ===================================================================== *)
(** * Saving notes *)
(* ===================================================================== *)

Lemma changes_zero {A} (p : A -> bool) (l : list A) :
  changes p l = 0 <-> forall x, In x l -> p x = false.
Proof.
  unfold changes. split.
  - intros H x Hx. destruct (p x) eqn:E; [|reflexivity].
    assert (Hin : In x (List.filter p l)) by (apply filter_In; auto).
    destruct (List.filter p l); [destruct Hin|cbn in H; lia].
  - intros H. assert (E : List.filter p l = []).
    { induction l as [|a l IH]; [reflexivity|]. cbn.
      rewrite (H a) by (left; reflexivity). apply IH.
      intros x Hx. apply H. right. exact Hx. }
    rewrite E. reflexivity.
Qed.

Lemma noted_absent (id : Z) (notes : string) (s : db) :
  ~ In id (map q_id (questions s)) -> noted id notes s = s.
Proof.
  intros Hid. unfold noted. destruct s as [qs rows qn sn]; cbn in *.
  f_equal. rewrite <- (map_id qs) at 2. apply map_ext_in.
  intros q Hq. unfold set_notes_row.
  destruct (Z.eqb_spec (q_id q) id) as [E|]; [|reflexivity].
  exfalso. apply Hid. rewrite <- E. apply in_map, Hq.
Qed.

Lemma changes_absent (id : Z) (s : db) :
  ~ In id (map q_id (questions s)) ->
  changes (fun q => q_id q =? id) (questions s) = 0.
Proof.
  intros Hid. apply changes_zero. intros q Hq. apply Z.eqb_neq.
  intros E. apply Hid. rewrite <- E. apply in_map, Hq.
Qed.

Lemma changes_present (id : Z) (s : db) :
  In id (map q_id (questions s)) ->
  changes (fun q => q_id q =? id) (questions s) <> 0.
Proof.
  intros Hid H. apply in_map_iff in Hid as (q & E & Hq).
  rewrite changes_zero in H. specialize (H q Hq). cbn in H.
  apply Z.eqb_neq in H. contradiction.
Qed.

Lemma run_put_notes_1 (id : Z) (notes : option string) (s : db) :
  run (put_notes_1 id notes) s
  = (Ok Success, noted id (or_default notes "") s).
Proof. reflexivity. Qed.

Lemma run_put_notes_2 (id : Z) (notes : option string) (s : db) :
  run (put_notes_2 id notes) s
  = (if changes (fun q => q_id q =? id) (questions s) =? 0
     then Ok (Failure 404 "Question not found") else Ok Success,
     noted id (or_default notes "") s).
Proof.
  unfold run, put_notes_2, try_catch, update_notes. unfold_M.
  destruct (_ =? 0); reflexivity.
Qed.

Lemma get_notes_noted (id : Z) (notes : string) (s : db) :
  In id (map q_id (questions s)) -> get_notes id (noted id notes s) = notes.
Proof.
  unfold get_notes, noted; cbn [questions]. intros Hid.
  induction (questions s) as [|q qs IH]; [destruct Hid|].
  cbn [map List.find]. rewrite set_notes_row_id. unfold set_notes_row at 1.
  destruct (Z.eqb_spec (q_id q) id) as [E|E]; [reflexivity|].
  apply IH. destruct Hid as [Hid|Hid]; [contradiction|exact Hid].
Qed.

(** The second copy of the handler does what C9 asks: an id that is not
    in the store is answered 404 and nothing changes; an id that is there
    has its notes overwritten and is answered with success. *)
Lemma setNotes_second_copy (id : Z) (notes : option string) (s : db) :
  (~ In id (map q_id (questions s)) ->
   run (put_notes_2 id notes) s
   = (Ok (Failure 404 "Question not found"), s))
  /\ (In id (map q_id (questions s)) ->
      exists s', run (put_notes_2 id notes) s = (Ok Success, s')
                 /\ get_notes id s' = or_default notes ""
                 /\ schedule s' = schedule s).
Proof.
  rewrite run_put_notes_2. split; intros Hid.
  - rewrite changes_absent, noted_absent by exact Hid. reflexivity.
  - destruct (Z.eqb_spec (changes (fun q => q_id q =? id) (questions s)) 0)
      as [E|E]; [apply changes_present in E; [destruct E|exact Hid]|].
    eexists; split; [reflexivity|]. split; [|reflexivity].
    apply get_notes_noted, Hid.
Qed.

(** C9: the code of the first copy of the handler at an id that is not in
    the store.  The UPDATE changes no row; the handler drops the result of
    [stmt.run] and answers [{ success: true }], where the claim, and the
    second copy, answer not found. *)
Theorem setNotes_first_copy_missing_id
        (id : Z) (notes : option string) (s : db) :
  ~ In id (map q_id (questions s)) ->
  run (put_notes_1 id notes) s = (Ok Success, s).
Proof.
  intros Hid. rewrite run_put_notes_1, noted_absent by exact Hid.
  reflexivity.
Qed.

Lemma setNotes_first_copy_missing_id_witness :
  run (put_notes_1 999 (Some "two pointers"%string)) empty_db
  = (Ok Success, empty_db).
Proof.
  apply (setNotes_first_copy_missing_id 999 (Some "two pointers"%string)
                                        empty_db).
  cbn. tauto.
Defined.

(* ===================================================================== *)
(** * Listing the reviews of a day *)
(* ===================================================================== *)

Lemma in_select_tasks (d : string) (s : db) (t : task) :
  In t (select_tasks d s) <->
  exists r q, In r (schedule s) /\ In q (questions s)
              /\ s_due_date r = d /\ s_question_id r = q_id q
              /\ t = mkTask (s_id r) (s_due_date r) (s_completed r)
                            (q_title q) (q_id q) (q_notes q).
Proof.
  unfold select_tasks. rewrite in_flat_map. split.
  - intros (r & Hr & Ht).
    destruct (String.eqb_spec (s_due_date r) d) as [E|E]; [|destruct Ht].
    apply in_map_iff in Ht as (q & <- & Hq).
    apply filter_In in Hq as [Hq Hid]. apply Z.eqb_eq in Hid.
    exists r, q. auto.
  - intros (r & q & Hr & Hq & Hd & Hid & ->). exists r. split; [exact Hr|].
    rewrite <- Hd, String.eqb_refl. apply in_map_iff. exists q.
    split; [reflexivity|]. apply filter_In.
    split; [exact Hq|]. apply Z.eqb_eq, Hid.
Qed.

(** With unique ids, exactly one question row joins a schedule row. *)
Lemma filter_owner (k : Z) (qs : list question) :
  NoDup (map q_id qs) -> In k (map q_id qs) ->
  exists q, List.filter (fun q => k =? q_id q) qs = [q].
Proof.
  induction qs as [|q qs IH]; intros Hnd Hin; [destruct Hin|].
  cbn [map] in Hnd. apply NoDup_cons in Hnd as [Hq Hnd].
  rewrite list_elem_of_In in Hq. cbn [List.filter].
  destruct (Z.eqb_spec k (q_id q)) as [E|E].
  - exists q. f_equal.
    assert (H : forall x, In x qs -> (k =? q_id x) = false).
    { intros x Hx. apply Z.eqb_neq. intros E'. apply Hq.
      rewrite <- E, E'. apply in_map, Hx. }
    clear -H. induction qs as [|a qs IH]; [reflexivity|]. cbn.
    rewrite (H a) by (left; reflexivity).
    apply IH. intros x Hx. apply H. right. exact Hx.
  - destruct Hin as [Hin|Hin]; [congruence|]. apply IH; assumption.
Qed.

Lemma select_tasks_ids (d : string) (s : db) :
  wf s -> map t_id (select_tasks d s) = map s_id (due_on d s).
Proof.
  intros Hwf. pose proof (wf_owner s Hwf) as Ho.
  pose proof (wf_question_ids s Hwf) as Hq.
  unfold select_tasks, due_on.
  induction (schedule s) as [|r rows IH]; [reflexivity|].
  apply List.Forall_cons_iff in Ho as [Hr Ho].
  cbn [flat_map List.filter]. rewrite map_app, IH by exact Ho.
  destruct (String.eqb (s_due_date r) d); [|reflexivity].
  apply has_question_In in Hr.
  destruct (filter_owner (s_question_id r) (questions s) Hq Hr) as [q ->].
  reflexivity.
Qed.

(** C10.  Without a date, [GET /api/schedule] takes the day of the clock:
    it answers what it answers when that day is given, which is one row for
    every pair of a review due that day and its question, with the
    question's title, id and notes; in a store that satisfies the
    invariant that is one row for each review due that day. *)
Theorem listReviews_defaults_to_today (now : Dayjs.date) (s : db) :
  wf s ->
  get_schedule None now s = get_schedule (Some (today_of now)) now s
  /\ (forall t,
        In t (get_schedule None now s) <->
        exists r q, In r (schedule s) /\ In q (questions s)
                    /\ s_due_date r = today_of now
                    /\ s_question_id r = q_id q
                    /\ t = mkTask (s_id r) (s_due_date r) (s_completed r)
                                  (q_title q) (q_id q) (q_notes q))
  /\ map t_id (get_schedule None now s) = map s_id (due_on (today_of now) s).
Proof.
  intros Hwf. unfold get_schedule, or_default. fold (today_of now).
  destruct (String.eqb_spec (today_of now) "") as [E|_];
    [destruct (format_not_empty _ E)|].
  split; [reflexivity|]. split.
  - intros t. apply in_select_tasks.
  - apply select_tasks_ids, Hwf.
Qed.

Lemma listReviews_defaults_to_today_witness :
  let now := Dayjs.mkDate 2024 1 1 in
  let s := created "LC 43" (Dayjs.mkDate 2023 12 31) empty_db in
  get_schedule None now s = get_schedule (Some (today_of now)) now s
  /\ (forall t,
        In t (get_schedule None now s) <->
        exists r q, In r (schedule s) /\ In q (questions s)
                    /\ s_due_date r = today_of now
                    /\ s_question_id r = q_id q
                    /\ t = mkTask (s_id r) (s_due_date r) (s_completed r)
                                  (q_title q) (q_id q) (q_notes q))
  /\ map t_id (get_schedule None now s) = map s_id (due_on (today_of now) s).
Proof.
  apply (listReviews_defaults_to_today
           (Dayjs.mkDate 2024 1 1)
           (created "LC 43" (Dayjs.mkDate 2023 12 31) empty_db)).
  apply wf_created, wf_empty.
Defined.

(* ===================================================================== *)
(** * The calendar counts *)
(* ===================================================================== *)

Lemma filter_filter {A} (p q : A -> bool) (l : list A) :
  List.filter q (List.filter p l) = List.filter (fun x => p x && q x) l.
Proof.
  induction l as [|a l IH]; [reflexivity|]. cbn.
  destruct (p a); cbn; [destruct (q a)|]; rewrite IH; reflexivity.
Qed.

Lemma count_due_incomplete (d : string) (s : db) :
  count_due d (incomplete s) = outstanding d s.
Proof. unfold count_due, incomplete, outstanding. rewrite filter_filter. reflexivity. Qed.

(** A date has an outstanding review exactly when its count is positive. *)
Lemma outstanding_pos (d : string) (s : db) :
  (0 < outstanding d s)%nat <->
  exists r, In r (schedule s) /\ s_due_date r = d /\ s_completed r = 0.
Proof.
  unfold outstanding. split.
  - intros H. destruct (List.filter _ (schedule s)) as [|r l] eqn:E;
      [cbn in H; lia|].
    assert (Hr : In r (List.filter
                         (fun r => (s_completed r =? 0)
                                   && String.eqb (s_due_date r) d)
                         (schedule s)))
      by (rewrite E; left; reflexivity).
    apply filter_In in Hr as [Hr Hp]. apply andb_true_iff in Hp as [Hc Hd].
    exists r. apply Z.eqb_eq in Hc. apply String.eqb_eq in Hd. auto.
  - intros (r & Hr & Hd & Hc).
    assert (Hin : In r (List.filter
                          (fun r => (s_completed r =? 0)
                                    && String.eqb (s_due_date r) d)
                          (schedule s))).
    { apply filter_In. split; [exact Hr|].
      rewrite Hc, Hd, String.eqb_refl. reflexivity. }
    destruct (List.filter _ (schedule s)); [destruct Hin|cbn; lia].
Qed.

Lemma in_incomplete_dates (d : string) (s : db) :
  In d (map s_due_date (incomplete s)) <-> (0 < outstanding d s)%nat.
Proof.
  rewrite outstanding_pos, in_map_iff. unfold incomplete. split.
  - intros (r & Hd & Hr). apply filter_In in Hr as [Hr Hc].
    apply Z.eqb_eq in Hc. eauto.
  - intros (r & Hr & Hd & Hc). exists r. split; [exact Hd|].
    apply filter_In. split; [exact Hr|]. apply Z.eqb_eq, Hc.
Qed.

Lemma calendar_stats_keys (s : db) :
  map fst (get_calendar_stats s)
  = remove_dups (map s_due_date (incomplete s)).
Proof.
  unfold get_calendar_stats. rewrite map_map. apply map_id.
Qed.

Lemma In_remove_dups (l : list string) (x : string) :
  In x (remove_dups l) <-> In x l.
Proof. rewrite <- !list_elem_of_In. apply elem_of_remove_dups. Qed.

Lemma in_calendar_stats (d : string) (n : nat) (s : db) :
  In (d, n) (get_calendar_stats s) <->
  n = outstanding d s /\ (0 < n)%nat.
Proof.
  unfold get_calendar_stats. rewrite in_map_iff. split.
  - intros (d' & [= <- <-] & Hd).
    rewrite count_due_incomplete. split; [reflexivity|].
    apply (proj1 (In_remove_dups _ _)) in Hd.
    apply in_incomplete_dates, Hd.
  - intros (-> & Hn). exists d. rewrite count_due_incomplete.
    split; [reflexivity|].
    apply (proj2 (In_remove_dups _ _)), in_incomplete_dates, Hn.
Qed.

(** After the toggle, the reviews that are not complete are those that
    were, without the toggled one. *)
Lemma outstanding_toggled_last (r : schedule_row) (s : db) :
  wf s -> In r (schedule s) -> s_completed r = 0 ->
  outstanding (s_due_date r) s = 1%nat ->
  outstanding (s_due_date r) (toggled (s_id r) s) = 0%nat.
Proof.
  intros Hwf Hr Hc Hone.
  pose proof (wf_schedule_ids s Hwf) as Hnd.
  destruct (Nat.eq_dec (outstanding (s_due_date r) (toggled (s_id r) s))
                        0%nat) as [E|E]; [exact E|exfalso].
  assert (Hpos : (0 < outstanding (s_due_date r) (toggled (s_id r) s))%nat)
    by lia.
  apply outstanding_pos in Hpos as (r' & Hr' & Hd' & Hc').
  cbn [toggled schedule] in Hr'.
  apply in_map_iff in Hr' as (r0 & <- & Hr0).
  rewrite toggle_row_due in Hd'.
  unfold toggle_row in Hc'.
  destruct (Z.eqb_spec (s_id r0) (s_id r)) as [Eid|Eid].
  - (* the toggled row itself: it is complete now *)
    assert (r0 = r) as ->.
    { clear -Hnd Hr Hr0 Eid.
      induction (schedule s) as [|a l IH]; [destruct Hr|].
      cbn [map] in Hnd. apply NoDup_cons in Hnd as [Ha Hnd].
      rewrite list_elem_of_In in Ha.
      destruct Hr as [->|Hr], Hr0 as [->|Hr0]; auto.
      - exfalso. apply Ha. rewrite <- Eid. apply in_map, Hr0.
      - exfalso. apply Ha. rewrite Eid. apply in_map, Hr. }
    cbn [s_completed] in Hc'. rewrite Hc in Hc'. discriminate.
  - (* another row, not complete before either: two were outstanding *)
    assert (Hne : r0 <> r) by congruence.
    unfold outstanding in Hone.
    assert (H1 : In r (List.filter
                         (fun x => (s_completed x =? 0)
                                   && String.eqb (s_due_date x) (s_due_date r))
                         (schedule s))).
    { apply filter_In. split; [exact Hr|].
      rewrite Hc, String.eqb_refl. reflexivity. }
    assert (H2 : In r0 (List.filter
                          (fun x => (s_completed x =? 0)
                                    && String.eqb (s_due_date x) (s_due_date r))
                          (schedule s))).
    { apply filter_In. split; [exact Hr0|].
      rewrite Hc', Hd', String.eqb_refl. reflexivity. }
    destruct (List.filter _ (schedule s)) as [|a [|b l]];
      cbn in Hone; try lia.
    destruct H1 as [->|[]], H2 as [->|[]]. congruence.
Qed.

Lemma statsMap_snoc (rows : list (string * nat)) (k : string) (v : nat) :
  Client.statsMap (rows ++ [(k, v)]) = <[k := v]> (Client.statsMap rows).
Proof. unfold Client.statsMap. rewrite fold_left_app. reflexivity. Qed.

(** With one row per date, the object the client builds maps a date to the
    count of its row. *)
Lemma statsMap_lookup (rows : list (string * nat)) (d : string) (n : nat) :
  NoDup (map fst rows) ->
  Client.statsMap rows !! d = Some n <-> In (d, n) rows.
Proof.
  induction rows as [|[k v] rows IH] using rev_ind; intros Hnd.
  - unfold Client.statsMap; cbn. rewrite lookup_empty. split; [discriminate|tauto].
  - rewrite statsMap_snoc, in_app_iff. rewrite map_app in Hnd.
    apply NoDup_app in Hnd as (Hnd & Hfresh & _).
    destruct (decide (k = d)) as [->|Hk].
    + rewrite lookup_insert_eq. split.
      * intros [= ->]. right. left. reflexivity.
      * intros [Hin|[[= ->]|[]]]; [|reflexivity].
        exfalso. apply (Hfresh d); [|cbn; left].
        apply list_elem_of_In, in_map_iff. exists (d, n). auto.
    + rewrite lookup_insert_ne by exact Hk. rewrite IH by exact Hnd.
      split; [tauto|]. intros [Hin|[[= -> ->]|[]]]; [exact Hin|congruence].
Qed.

(** C7.  In every store, [GET /api/calendar-stats] answers one row for each
    due date that has a review that is not complete, and no other row; the
    count of a row is the number of those reviews, never 0; the object the
    client builds from the rows maps a date to that count, and has no entry
    for other dates.  When the only review of a date that is not complete
    is toggled, the date is gone from the answer. *)
Theorem countsByDate_spec (s : db) :
  NoDup (map fst (get_calendar_stats s))
  /\ (forall d,
        In d (map fst (get_calendar_stats s)) <->
        exists r, In r (schedule s) /\ s_due_date r = d /\ s_completed r = 0)
  /\ (forall d n,
        In (d, n) (get_calendar_stats s) <->
        n = outstanding d s /\ (0 < n)%nat)
  /\ (forall d,
        Client.statsMap (get_calendar_stats s) !! d
        = if decide (outstanding d s = 0%nat) then None
          else Some (outstanding d s))
  /\ (forall r,
        wf s -> In r (schedule s) -> s_completed r = 0 ->
        outstanding (s_due_date r) s = 1%nat ->
        let s' := (run (post_toggle (s_id r)) s).2 in
        ~ In (s_due_date r) (map fst (get_calendar_stats s'))
        /\ Client.statsMap (get_calendar_stats s') !! s_due_date r = None).
Proof.
  assert (Hkeys : forall s d,
             In d (map fst (get_calendar_stats s)) <->
             (0 < outstanding d s)%nat).
  { intros s0 d. rewrite calendar_stats_keys.
    rewrite In_remove_dups. apply in_incomplete_dates. }
  assert (Hnd : forall s, NoDup (map fst (get_calendar_stats s))).
  { intros s0. rewrite calendar_stats_keys. apply NoDup_remove_dups. }
  assert (Hmap : forall s d,
             Client.statsMap (get_calendar_stats s) !! d
             = if decide (outstanding d s = 0%nat) then None
               else Some (outstanding d s)).
  { intros s0 d. destruct (decide (outstanding d s0 = 0%nat)) as [E|E].
    - destruct (Client.statsMap (get_calendar_stats s0) !! d) as [n|] eqn:L;
        [|reflexivity].
      apply statsMap_lookup, in_calendar_stats in L; [lia|apply Hnd].
    - apply statsMap_lookup; [apply Hnd|].
      apply in_calendar_stats. split; [reflexivity|lia]. }
  split; [apply Hnd|]. split; [|split; [|split]].
  - intros d. rewrite Hkeys. apply outstanding_pos.
  - intros d n. apply in_calendar_stats.
  - apply Hmap.
  - intros r Hwf Hr Hc Hone. cbn zeta. rewrite run_post_toggle. cbn [snd].
    pose proof (outstanding_toggled_last r s Hwf Hr Hc Hone) as Hz.
    split.
    + rewrite Hkeys, Hz. lia.
    + rewrite Hmap, Hz. reflexivity.
Qed.

(** The last part of [countsByDate_spec] on a store with one item, whose
    first review is toggled. *)
Lemma countsByDate_spec_witness :
  let s := created "LC 43" (Dayjs.mkDate 2024 1 1) empty_db in
  let s' := (run (post_toggle 1) s).2 in
  ~ In "2024-01-02"%string (map fst (get_calendar_stats s'))
  /\ Client.statsMap (get_calendar_stats s') !! "2024-01-02"%string = None.
Proof.
  apply (proj2 (proj2 (proj2 (proj2
           (countsByDate_spec
              (created "LC 43" (Dayjs.mkDate 2024 1 1) empty_db)))))
           (mkSchedule 1 1 "2024-01-02" 0)).
  - apply wf_created, wf_empty.
  - left. reflexivity.
  - reflexivity.
  - reflexivity.
Defined.

(* ===================================================================== *)
(** * The notes codec *)
(* ===================================================================== *)

Section Codec.
Import Json Client.

(** ** Reading back a quoted string *)

Lemma hex_val_digit (n : N) :
  (n < 16)%N -> hex_val (hex_digit n) = Some n.
Proof.
  intros Hn.
  assert (H : forallb (fun k => match hex_val (hex_digit k) with
                                | Some k' => (k' =? k)%N
                                | None => false
                                end)
                      (map N.of_nat (seq 0 16)) = true)
    by (vm_compute; reflexivity).
  rewrite forallb_forall in H. specialize (H n).
  destruct (hex_val (hex_digit n)) as [k|].
  - f_equal. apply N.eqb_eq, H, in_map_iff. exists (N.to_nat n).
    split; [lia|]. apply in_seq. lia.
  - discriminate H. apply in_map_iff. exists (N.to_nat n).
    split; [lia|]. apply in_seq. lia.
Qed.

Lemma hex_split (c : N) :
  (c < 65536)%N ->
  (4096 * (c / 4096 mod 16) + 256 * (c / 256 mod 16)
   + 16 * (c / 16 mod 16) + c mod 16)%N = c.
Proof. intros Hc. zify. Z.to_euclidean_division_equations. lia. Qed.

Lemma parse_unicode_escape (c : N) (rest : list N) :
  (c < 65536)%N ->
  parse_chars (unicode_escape c ++ rest) = cons_char c (parse_chars rest).
Proof.
  intros Hc. unfold unicode_escape. cbn [app parse_chars].
  change (92 =? 34)%N with false. change (92 =? 92)%N with true.
  change (117 =? 117)%N with true. cbv iota.
  rewrite !hex_val_digit by (apply N.mod_lt; discriminate).
  rewrite hex_split by exact Hc. reflexivity.
Qed.

Lemma parse_plain_char (c : N) (rest : list N) :
  c <> 34%N -> c <> 92%N -> (32 <= c)%N ->
  parse_chars (c :: rest) = cons_char c (parse_chars rest).
Proof.
  intros H1 H2 H3. cbn [parse_chars].
  destruct (N.eqb_spec c 34); [contradiction|].
  destruct (N.eqb_spec c 92); [contradiction|].
  destruct (N.ltb_spec c 32); [lia|]. reflexivity.
Qed.

Lemma parse_quote_unit (c : N) (rest : list N) :
  (c < 65536)%N \/ (is_leading c || is_trailing c = false) ->
  parse_chars (quote_unit c ++ rest) = cons_char c (parse_chars rest).
Proof.
  intros Hc. unfold quote_unit.
  destruct (N.eqb_spec c 8) as [->|]; [reflexivity|].
  destruct (N.eqb_spec c 9) as [->|]; [reflexivity|].
  destruct (N.eqb_spec c 10) as [->|]; [reflexivity|].
  destruct (N.eqb_spec c 12) as [->|]; [reflexivity|].
  destruct (N.eqb_spec c 13) as [->|]; [reflexivity|].
  destruct (N.eqb_spec c 34) as [->|]; [reflexivity|].
  destruct (N.eqb_spec c 92) as [->|]; [reflexivity|].
  destruct ((c <? 32)%N || is_leading c || is_trailing c) eqn:E.
  - apply parse_unicode_escape.
    unfold is_leading, is_trailing in *.
    destruct (N.ltb_spec c 32); [lia|]. cbn [orb] in E.
    destruct Hc as [Hc|Hc]; [exact Hc|]. rewrite Hc in E. discriminate.
  - apply orb_false_iff in E as [E _]. apply orb_false_iff in E as [E _].
    apply N.ltb_ge in E. apply parse_plain_char; assumption.
Qed.

Lemma leading_plain (c : N) (rest : list N) :
  is_leading c = true ->
  parse_chars (c :: rest) = cons_char c (parse_chars rest).
Proof.
  unfold is_leading. intros H. apply andb_true_iff in H as [H _].
  apply N.leb_le in H. apply parse_plain_char; lia.
Qed.

Lemma trailing_plain (c : N) (rest : list N) :
  is_trailing c = true ->
  parse_chars (c :: rest) = cons_char c (parse_chars rest).
Proof.
  unfold is_trailing. intros H. apply andb_true_iff in H as [H _].
  apply N.leb_le in H. apply parse_plain_char; lia.
Qed.

Lemma surrogate_small (c : N) :
  is_leading c || is_trailing c = true -> (c < 65536)%N.
Proof.
  unfold is_leading, is_trailing. intros H.
  apply orb_true_iff in H as [H|H]; apply andb_true_iff in H as [_ H];
    apply N.leb_le in H; lia.
Qed.

Lemma quote_unit_ok (c : N) (rest : list N) :
  parse_chars (quote_unit c ++ rest) = cons_char c (parse_chars rest).
Proof.
  apply parse_quote_unit.
  destruct (is_leading c || is_trailing c) eqn:E; [left|right; reflexivity].
  apply surrogate_small, E.
Qed.

Lemma quote_chars_pair (c d : N) (r : jsstring) :
  quote_chars (c :: d :: r)
  = if is_leading c && is_trailing d then c :: d :: quote_chars r
    else quote_unit c ++ quote_chars (d :: r).
Proof. reflexivity. Qed.

(** What [QuoteJSONString] writes between the quotes reads back as the
    string, whatever its code units. *)
Lemma parse_quote_chars (s : jsstring) (rest : list N) :
  parse_chars (quote_chars s ++ 34%N :: rest) = POk s rest.
Proof.
  remember (length s) as n eqn:Hn.
  assert (Hle : (length s <= n)%nat) by lia. clear Hn.
  revert s Hle. induction n as [|n IH]; intros s Hle.
  - destruct s; [reflexivity|cbn in Hle; lia].
  - destruct s as [|c [|d r]]; [reflexivity| |].
    + cbn [quote_chars]. rewrite quote_unit_ok. reflexivity.
    + rewrite quote_chars_pair.
      destruct (is_leading c && is_trailing d) eqn:E.
      * apply andb_true_iff in E as [Ec Ed].
        cbn [app]. rewrite leading_plain, trailing_plain by assumption.
        rewrite IH by (cbn [length] in *; lia). reflexivity.
      * rewrite <- app_assoc, quote_unit_ok.
        rewrite IH by (cbn [length] in *; lia). reflexivity.
Qed.

(** ** Reading back a stringified payload *)

Lemma stringify_notes_eq (bf opt : jsstring) :
  stringify_notes bf opt
  = 123%N :: 34%N :: quote_chars key_bruteForce ++ 34%N :: 58%N :: 34%N
      :: quote_chars bf ++ 34%N :: 44%N :: 34%N
      :: quote_chars key_optimized ++ 34%N :: 58%N :: 34%N
      :: quote_chars opt ++ [34; 125]%N.
Proof.
  unfold stringify_notes, quote.
  change (of_string "{") with [123%N]. change (of_string ":") with [58%N].
  change (of_string ",") with [44%N]. change (of_string "}") with [125%N].
  fold key_bruteForce key_optimized.
  repeat (rewrite <- ?app_assoc; cbn [app]). reflexivity.
Qed.

(** One step of the parser, spelled out. *)
Lemma parse_value_S fuel (s : list N) :
  parse_value (S fuel) s
  = match skip_ws s with
    | [] => PErr
    | c :: r =>
        if (c =? 34)%N then
          match parse_chars r with
          | POk str r' => POk (JString str) r'
          | PErr => PErr
          | PFuel => PFuel
          end
        else if (c =? 91)%N then
          match skip_ws r with
          | d :: r' =>
              if (d =? 93)%N then POk (JArray []) r'
              else parse_elements fuel r []
          | [] => PErr
          end
        else if (c =? 123)%N then
          match skip_ws r with
          | d :: r' =>
              if (d =? 125)%N then POk (JObject []) r'
              else parse_members fuel r []
          | [] => PErr
          end
        else if (c =? 110)%N then parse_literal "null" JNull (c :: r)
        else if (c =? 116)%N then parse_literal "true" (JBool true) (c :: r)
        else if (c =? 102)%N then
          parse_literal "false" (JBool false) (c :: r)
        else parse_number (c :: r)
    end.
Proof. reflexivity. Qed.

Lemma parse_elements_S fuel (s : list N) acc :
  parse_elements (S fuel) s acc
  = match parse_value fuel s with
    | POk v r =>
        match skip_ws r with
        | c :: r' =>
            if (c =? 44)%N then parse_elements fuel r' (acc ++ [v])
            else if (c =? 93)%N then POk (JArray (acc ++ [v])) r'
            else PErr
        | [] => PErr
        end
    | PErr => PErr
    | PFuel => PFuel
    end.
Proof. reflexivity. Qed.

Lemma parse_members_S fuel (s : list N) acc :
  parse_members (S fuel) s acc
  = match skip_ws s with
    | q :: r =>
        if (q =? 34)%N then
          match parse_chars r with
          | POk key r1 =>
              match skip_ws r1 with
              | c :: r2 =>
                  if (c =? 58)%N then
                    match parse_value fuel r2 with
                    | POk v r3 =>
                        match skip_ws r3 with
                        | d :: r4 =>
                            if (d =? 44)%N
                            then parse_members fuel r4 (acc ++ [(key, v)])
                            else if (d =? 125)%N
                            then POk (JObject (acc ++ [(key, v)])) r4
                            else PErr
                        | [] => PErr
                        end
                    | PErr => PErr
                    | PFuel => PFuel
                    end
                  else PErr
              | [] => PErr
              end
          | PErr => PErr
          | PFuel => PFuel
          end
        else PErr
    | [] => PErr
    end.
Proof. reflexivity. Qed.

(** One member [ "key":"value" ] followed by a comma or by the closing
    brace. *)
Lemma parse_member_comma fuel (key v : jsstring) (rest : list N) acc :
  parse_members (S (S fuel))
    (34%N :: quote_chars key ++ 34%N :: 58%N :: 34%N
      :: quote_chars v ++ 34%N :: 44%N :: rest) acc
  = parse_members (S fuel) rest (acc ++ [(key, JString v)]).
Proof.
  rewrite parse_members_S. parser_step. rewrite parse_quote_chars.
  parser_step. rewrite parse_value_S. parser_step.
  rewrite parse_quote_chars. parser_step. reflexivity.
Qed.

Lemma parse_member_last fuel (key v : jsstring) (rest : list N) acc :
  parse_members (S (S fuel))
    (34%N :: quote_chars key ++ 34%N :: 58%N :: 34%N
      :: quote_chars v ++ 34%N :: 125%N :: rest) acc
  = POk (JObject (acc ++ [(key, JString v)])) rest.
Proof.
  rewrite parse_members_S. parser_step. rewrite parse_quote_chars.
  parser_step. rewrite parse_value_S. parser_step.
  rewrite parse_quote_chars. parser_step. reflexivity.
Qed.

Lemma parse_value_stringify fuel (bf opt : jsstring) :
  parse_value (S (S (S (S fuel)))) (stringify_notes bf opt)
  = POk (JObject [(key_bruteForce, JString bf);
                  (key_optimized, JString opt)]) [].
Proof.
  rewrite stringify_notes_eq, parse_value_S. parser_step.
  rewrite parse_member_comma, parse_member_last. reflexivity.
Qed.

Lemma JSON_parse_stringify (bf opt : jsstring) :
  JSON_parse (stringify_notes bf opt)
  = Ok (JObject [(key_bruteForce, JString bf);
                 (key_optimized, JString opt)]).
Proof.
  unfold JSON_parse, parse_text.
  assert (E : exists k, (2 * length (stringify_notes bf opt) + 2)%nat
                        = S (S (S (S k)))).
  { exists (2 * length (stringify_notes bf opt) - 2)%nat.
    rewrite stringify_notes_eq. cbn [length]. lia. }
  destruct E as [k ->]. rewrite parse_value_stringify. reflexivity.
Qed.

(** ** The recursion budget of the parser is never spent *)

Lemma good_weaken {A} (k k' : nat) (s s' : list N) (p : presult A) :
  good k s p -> (k' + length s <= k + length s')%nat -> good k' s' p.
Proof. destruct p; cbn; intros; try tauto; lia. Qed.

Lemma skip_ws_length (s : list N) : (length (skip_ws s) <= length s)%nat.
Proof.
  induction s as [|c s IH]; cbn; [lia|]. destruct (is_ws c); cbn; lia.
Qed.

Lemma good_cons_char (c : N) (k : nat) (s : list N) (p : presult jsstring) :
  good k s p -> good k s (cons_char c p).
Proof. destruct p; cbn; tauto. Qed.

Lemma parse_chars_good (s : list N) : good 1 s (parse_chars s).
Proof.
  remember (length s) as n eqn:Hn.
  assert (Hle : (length s <= n)%nat) by lia. clear Hn.
  revert s Hle. induction n as [|n IH]; intros s Hle;
    (destruct s as [|c s]; [exact I|]); cbn [length] in Hle; [lia|].
  cbn [parse_chars]. destruct (c =? 34)%N; [cbn; lia|].
  destruct (c =? 92)%N.
  - destruct s as [|e r1]; [exact I|]. destruct (e =? 117)%N.
    + destruct r1 as [|h1 [|h2 [|h3 [|h4 r2]]]]; try exact I.
      destruct (hex_val h1), (hex_val h2), (hex_val h3), (hex_val h4);
        try exact I.
      apply good_cons_char. eapply good_weaken; [apply (IH r2)|];
        cbn [length] in *; lia.
    + destruct (simple_escape e); [|exact I].
      apply good_cons_char. eapply good_weaken; [apply (IH r1)|];
        cbn [length] in *; lia.
  - destruct (c <? 32)%N; [exact I|].
    apply good_cons_char. eapply good_weaken; [apply (IH s)|];
      cbn [length] in *; lia.
Qed.

Lemma digits_length (s : list N) : forall acc n,
  (length (digits s acc n).2 <= length s)%nat.
Proof.
  induction s as [|c s IH]; intros acc n; cbn [digits]; [cbn; lia|].
  destruct (is_digit c); [|cbn; lia].
  specialize (IH (10 * acc + Z.of_N (c - 48)) (n + 1)). cbn [length]. lia.
Qed.

Lemma parse_int_good (s : list N) : good 1 s (parse_int s).
Proof.
  destruct s as [|c s]; [exact I|]. cbn [parse_int].
  destruct (c =? 48)%N; [cbn; lia|].
  destruct (is_digit c) eqn:E; [|exact I].
  cbn [digits]. rewrite E.
  pose proof (digits_length s (10 * 0 + Z.of_N (c - 48)) (0 + 1)) as H.
  destruct (digits s _ _) as [[m k] r]. cbn in *. lia.
Qed.

Lemma parse_frac_good (m : Z) (s : list N) : good 0 s (parse_frac m s).
Proof.
  destruct s as [|c s]; [cbn; lia|]. cbn [parse_frac].
  destruct (c =? 46)%N; [|cbn; lia].
  pose proof (digits_length s m 0) as H.
  destruct (digits s m 0) as [[m' k] r].
  destruct (k =? 0); cbn in *; [exact I|lia].
Qed.

Lemma parse_exp_good (s : list N) : good 0 s (parse_exp s).
Proof.
  destruct s as [|c s]; [cbn; lia|]. cbn [parse_exp].
  destruct ((c =? 101) || (c =? 69))%N; [|cbn; lia].
  assert (H : forall neg r1, (length r1 <= length s)%nat ->
              good 0 (c :: s)
                (let '(x, n, r2) := digits r1 0 0 in
                 if n =? 0 then PErr
                 else POk (if neg : bool then - x else x) r2)).
  { intros neg r1 Hr. pose proof (digits_length r1 0 0) as H.
    destruct (digits r1 0 0) as [[x k] r2].
    destruct (k =? 0); cbn in *; [exact I|lia]. }
  destruct s as [|g r1]; [exact I|].
  destruct (g =? 45)%N; [apply (H true); cbn; lia|].
  destruct (g =? 43)%N; apply (H false); cbn; lia.
Qed.

Lemma parse_number_good (s : list N) : good 1 s (parse_number s).
Proof.
  unfold parse_number.
  assert (H : forall neg s1, (length s1 <= length s)%nat ->
              good 1 s
                match parse_int s1 with
                | POk m s2 =>
                    match parse_frac m s2 with
                    | POk (m', n) s3 =>
                        match parse_exp s3 with
                        | POk x s4 =>
                            POk (JNumber (if neg : bool then - m' else m')
                                         (x - n)) s4
                        | PErr => PErr
                        | PFuel => PFuel
                        end
                    | PErr => PErr
                    | PFuel => PFuel
                    end
                | PErr => PErr
                | PFuel => PFuel
                end).
  { intros neg s1 Hs1. pose proof (parse_int_good s1) as H1.
    destruct (parse_int s1) as [m s2| |]; [|exact I|destruct H1].
    pose proof (parse_frac_good m s2) as H2.
    destruct (parse_frac m s2) as [[m' n] s3| |]; [|exact I|destruct H2].
    pose proof (parse_exp_good s3) as H3.
    destruct (parse_exp s3) as [x s4| |]; [|exact I|destruct H3].
    cbn in *. lia. }
  destruct s as [|c r]; [apply (H false); lia|].
  destruct (c =? 45)%N; [apply (H true)|apply (H false)]; cbn; lia.
Qed.

Lemma strip_prefix_length (p : list N) : forall s r,
  strip_prefix p s = Some r -> (length r + length p = length s)%nat.
Proof.
  induction p as [|a p IH]; intros s r H; cbn in H.
  - injection H as <-. cbn. lia.
  - destruct s as [|b s]; [discriminate|].
    destruct (a =? b)%N; [|discriminate]. apply IH in H. cbn. lia.
Qed.

Lemma parse_literal_good (lit : string) (v : json) (s : list N) :
  lit <> ""%string -> good 1 s (parse_literal lit v s).
Proof.
  intros Hlit. unfold parse_literal.
  destruct (strip_prefix (of_string lit) s) as [r|] eqn:E; [|exact I].
  apply strip_prefix_length in E. cbn.
  destruct lit; [contradiction|]. cbn [of_string list_ascii_of_string
                                       map length] in E. lia.
Qed.

Lemma parser_good (fuel : nat) :
  (forall s, (2 * length s + 1 <= fuel)%nat ->
             good 1 s (parse_value fuel s))
  /\ (forall s acc, (2 * length s + 2 <= fuel)%nat ->
                    good 1 s (parse_elements fuel s acc))
  /\ (forall s acc, (2 * length s + 2 <= fuel)%nat ->
                    good 1 s (parse_members fuel s acc)).
Proof.
  induction fuel as [|fuel (IHv & IHe & IHm)];
    [repeat split; intros; lia|].
  split; [|split].
  - intros s Hf. rewrite parse_value_S.
    pose proof (skip_ws_length s) as Hs.
    destruct (skip_ws s) as [|c r]; [exact I|]. cbn [length] in Hs.
    destruct (c =? 34)%N.
    { pose proof (parse_chars_good r) as H.
      destruct (parse_chars r); cbn in *; try tauto; lia. }
    destruct (c =? 91)%N.
    { pose proof (skip_ws_length r) as Hr.
      destruct (skip_ws r) as [|d r']; [exact I|]. cbn [length] in Hr.
      destruct (d =? 93)%N; [cbn; lia|].
      eapply good_weaken; [apply IHe|]; lia. }
    destruct (c =? 123)%N.
    { pose proof (skip_ws_length r) as Hr.
      destruct (skip_ws r) as [|d r']; [exact I|]. cbn [length] in Hr.
      destruct (d =? 125)%N; [cbn; lia|].
      eapply good_weaken; [apply IHm|]; lia. }
    destruct (c =? 110)%N.
    { eapply good_weaken; [apply parse_literal_good; discriminate|].
      cbn [length]. lia. }
    destruct (c =? 116)%N.
    { eapply good_weaken; [apply parse_literal_good; discriminate|].
      cbn [length]. lia. }
    destruct (c =? 102)%N.
    { eapply good_weaken; [apply parse_literal_good; discriminate|].
      cbn [length]. lia. }
    eapply good_weaken; [apply parse_number_good|]. cbn [length]. lia.
  - intros s acc Hf. rewrite parse_elements_S.
    pose proof (IHv s ltac:(lia)) as Hv.
    destruct (parse_value fuel s) as [v r| |]; [|exact I|destruct Hv].
    cbn in Hv. pose proof (skip_ws_length r) as Hr.
    destruct (skip_ws r) as [|c r']; [exact I|]. cbn [length] in Hr.
    destruct (c =? 44)%N.
    { eapply good_weaken; [apply IHe|]; lia. }
    destruct (c =? 93)%N; [cbn; lia|exact I].
  - intros s acc Hf. rewrite parse_members_S.
    pose proof (skip_ws_length s) as Hs.
    destruct (skip_ws s) as [|q r]; [exact I|]. cbn [length] in Hs.
    destruct (q =? 34)%N; [|exact I].
    pose proof (parse_chars_good r) as Hk.
    destruct (parse_chars r) as [key r1| |]; [|exact I|destruct Hk].
    cbn in Hk. pose proof (skip_ws_length r1) as Hr1.
    destruct (skip_ws r1) as [|c r2]; [exact I|]. cbn [length] in Hr1.
    destruct (c =? 58)%N; [|exact I].
    pose proof (IHv r2 ltac:(lia)) as Hv.
    destruct (parse_value fuel r2) as [v r3| |]; [|exact I|destruct Hv].
    cbn in Hv. pose proof (skip_ws_length r3) as Hr3.
    destruct (skip_ws r3) as [|d r4]; [exact I|]. cbn [length] in Hr3.
    destruct (d =? 44)%N.
    { eapply good_weaken; [apply IHm|]; lia. }
    destruct (d =? 125)%N; [cbn; lia|exact I].
Qed.

(** With the budget [JSON_parse] gives it, the parser decides every
    text: a [Throw] of [JSON_parse] is a syntax error, never a budget
    spent. *)
Lemma parse_text_fuel (text : jsstring) :
  parse_text (2 * length text + 2) text <> PFuel.
Proof.
  unfold parse_text.
  destruct (parser_good (2 * length text + 2)) as (Hv & _ & _).
  specialize (Hv text ltac:(lia)).
  destruct (parse_value _ text) as [v r| |]; [|discriminate|destruct Hv].
  destruct (skip_ws r); discriminate.
Qed.

(** ** The two laws of the codec *)

Lemma stringify_notes_not_empty (bf opt : jsstring) :
  stringify_notes bf opt <> [].
Proof. rewrite stringify_notes_eq. discriminate. Qed.

Lemma parseNotes_parsed (raw : jsstring) (v : json) :
  raw <> [] -> JSON_parse raw = Ok v -> v <> JNull ->
  parseNotes raw
  = mkNotes (or_empty (member v "bruteForce"))
            (or_empty (member v "optimized")).
Proof.
  intros Hraw Hv Hnull. unfold parseNotes.
  destruct raw as [|c raw]; [contradiction|]. rewrite Hv.
  destruct v; try reflexivity. contradiction.
Qed.

Lemma parseNotes_fallback (raw : jsstring) :
  raw <> [] ->
  (exists e, JSON_parse raw = Throw e) \/ JSON_parse raw = Ok JNull ->
  parseNotes raw = mkNotes (JString raw) (JString []).
Proof.
  intros Hraw H. unfold parseNotes.
  destruct raw as [|c raw]; [contradiction|].
  destruct H as [[e ->]| ->]; reflexivity.
Qed.

End Codec.

(** C5.  Parsing what [JSON.stringify] writes for a payload of two strings
    gives the two strings back, whatever their code units. *)
Theorem notes_round_trip (bf opt : Json.jsstring) :
  Client.parseNotes (Client.stringify_notes bf opt)
  = Client.mkNotes (Json.JString bf) (Json.JString opt).
Proof.
  rewrite (parseNotes_parsed _ _ (stringify_notes_not_empty bf opt)
                             (JSON_parse_stringify bf opt))
    by discriminate.
  unfold Client.member.
  change (Json.lookup_key (Json.of_string "bruteForce") _)
    with (Some (Json.JString bf)).
  change (Json.lookup_key (Json.of_string "optimized") _)
    with (Some (Json.JString opt)).
  destruct bf, opt; reflexivity.
Qed.

(** C6, as the specification states it, fails on the text [null]: it
    parses as JSON, and yet [parseNotes] answers with the raw text as
    [bruteForce], not with the two fields defaulted to the empty string,
    because reading a property of [null] throws inside the [try]. *)
Lemma parseNotes_null_is_fallback :
  Json.JSON_parse (Json.of_string "null") = Ok Json.JNull
  /\ Client.parseNotes (Json.of_string "null")
     = Client.mkNotes (Json.JString (Json.of_string "null")) (Json.JString [])
  /\ Client.parseNotes (Json.of_string "null")
     <> Client.mkNotes
          (Json.or_empty (Client.member Json.JNull "bruteForce"))
          (Json.or_empty (Client.member Json.JNull "optimized")).
Proof. vm_compute. repeat split; try reflexivity. discriminate. Qed.

(** C6, amended.  [parseNotes] is a total function.  On the empty text it
    answers two empty fields.  On a text that parses as JSON to a value
    other than [null] it answers the two members of that value, each
    replaced by the empty string when it is missing (or falsy).  On every
    other text that is not empty (one that does not parse as JSON, or that
    parses to [null]) it answers the whole raw text as [bruteForce] and the
    empty string as [optimized]. *)
Theorem parseNotes_cases :
  Client.parseNotes [] = Client.mkNotes (Json.JString []) (Json.JString [])
  /\ (forall raw v,
        raw <> [] -> Json.JSON_parse raw = Ok v -> v <> Json.JNull ->
        Client.parseNotes raw
        = Client.mkNotes (Json.or_empty (Client.member v "bruteForce"))
                         (Json.or_empty (Client.member v "optimized")))
  /\ Json.or_empty None = Json.JString []
  /\ (forall raw,
        raw <> [] ->
        (exists e, Json.JSON_parse raw = Throw e)
        \/ Json.JSON_parse raw = Ok Json.JNull ->
        Client.parseNotes raw
        = Client.mkNotes (Json.JString raw) (Json.JString [])).
Proof.
  split; [reflexivity|]. split; [apply parseNotes_parsed|].
  split; [reflexivity|]. apply parseNotes_fallback.
Qed.

(** The cases of [parseNotes_cases] on a free text and on an object that
    has only one of the two members. *)
Lemma parseNotes_cases_witness :
  Client.parseNotes (Json.of_string "plain text")
  = Client.mkNotes (Json.JString (Json.of_string "plain text"))
                   (Json.JString [])
  /\ Client.parseNotes
       (Json.of_string "{" ++ Json.quote (Json.of_string "optimized")
        ++ Json.of_string ":" ++ Json.quote (Json.of_string "x")
        ++ Json.of_string "}")
     = Client.mkNotes (Json.JString []) (Json.JString (Json.of_string "x")).
Proof.
  destruct parseNotes_cases as (_ & Hparsed & _ & Hraw). split.
  - apply Hraw; [discriminate|]. left. eexists. vm_compute. reflexivity.
  - apply (Hparsed _ (Json.JObject
                        [(Json.of_string "optimized",
                          Json.JString (Json.of_string "x"))]));
      [discriminate|vm_compute; reflexivity|discriminate].
Defined.

(* ===================================================================== *)
(** * Day numbers *)
(* ===================================================================== *)

Section DayNumbers.
Import Dayjs Calendar.

Lemma month_cases (m : Z) :
  1 <= m <= 12 ->
  m = 1 \/ m = 2 \/ m = 3 \/ m = 4 \/ m = 5 \/ m = 6 \/ m = 7 \/ m = 8
  \/ m = 9 \/ m = 10 \/ m = 11 \/ m = 12.
Proof. lia. Qed.

Lemma era_days (y : Z) :
  y / 400 * 146097 + (y mod 400 * 365 + y mod 400 / 4 - y mod 400 / 100)
  = year_days y.
Proof.
  unfold year_days. Z.to_euclidean_division_equations. lia.
Qed.

Lemma days_from_civil_eq (d : date) :
  days_from_civil d
  = year_days (if month d <=? 2 then year d - 1 else year d)
    + (153 * ((month d + 9) mod 12) + 2) / 5 + day d - 1 - 719468.
Proof.
  unfold days_from_civil. cbv zeta. rewrite <- era_days. lia.
Qed.

Lemma year_days_succ (y : Z) :
  year_days y = year_days (y - 1) + (if is_leap y then 366 else 365).
Proof.
  unfold year_days, is_leap.
  destruct (Z.eqb_spec (y mod 4) 0), (Z.eqb_spec (y mod 100) 0),
    (Z.eqb_spec (y mod 400) 0); cbn [negb andb orb];
    Z.to_euclidean_division_equations; lia.
Qed.

(** The day after has the next day number. *)
Lemma days_from_civil_next_day (d : date) :
  cal_valid d -> days_from_civil (next_day d) = days_from_civil d + 1.
Proof.
  intros [Hm Hd]. rewrite !days_from_civil_eq. unfold next_day.
  destruct d as [y m k]; cbn [year month day] in *.
  destruct (Z.ltb_spec k (days_in_month y m)); cbn [year month day]; [lia|].
  assert (Hk : k = days_in_month y m) by lia. subst k. clear Hd H.
  destruct (month_cases m Hm) as
      [->|[->|[->|[->|[->|[->|[->|[->|[->|[->|[->| ->]]]]]]]]]]];
    cbv [days_in_month year month day Z.ltb Z.eqb Z.compare
         Pos.compare Pos.compare_cont Pos.eqb orb];
    repeat match goal with
           | |- context [Z.pos ?a + Z.pos ?b] =>
               let v := eval vm_compute in (Z.pos a + Z.pos b) in
               change (Z.pos a + Z.pos b) with v
           end;
    cbv [Z.leb Z.compare Pos.compare Pos.compare_cont];
    replace (y + 1 - 1) with y by lia;
    try (Z.to_euclidean_division_equations; lia).
  rewrite (year_days_succ y).
  destruct (is_leap y); Z.to_euclidean_division_equations; lia.
Qed.

Lemma next_day_cal_valid (d : date) : cal_valid d -> cal_valid (next_day d).
Proof.
  intros [Hm Hd]. unfold cal_valid, next_day.
  destruct (Z.ltb_spec (day d) (days_in_month (year d) (month d)));
    [|destruct (Z.ltb_spec (month d) 12)]; cbn [year month day];
    repeat match goal with
           | |- context [days_in_month ?y ?m] =>
               lazymatch goal with
               | _ : 28 <= days_in_month y m <= 31 |- _ => fail
               | _ => pose proof (days_in_month_le y m)
               end
           end; lia.
Qed.

Lemma iter_next_day_cal_valid (n : nat) (d : date) :
  cal_valid d -> cal_valid (Nat.iter n next_day d).
Proof.
  intros Hd. induction n as [|n IH]; [exact Hd|].
  rewrite Nat.iter_succ. apply next_day_cal_valid, IH.
Qed.

Lemma days_from_civil_iter (n : nat) (d : date) :
  cal_valid d ->
  days_from_civil (Nat.iter n next_day d) = days_from_civil d + Z.of_nat n.
Proof.
  intros Hd. induction n as [|n IH]; [cbn [Nat.iter nat_rect]; lia|].
  rewrite Nat.iter_succ, days_from_civil_next_day, IH
    by (apply iter_next_day_cal_valid, Hd).
  lia.
Qed.

Lemma add_days_cal_valid (n : Z) (d : date) :
  0 <= n -> cal_valid d -> cal_valid (add_days n d).
Proof.
  intros Hn Hd. unfold add_days. destruct (Z.leb_spec 0 n); [|lia].
  apply iter_next_day_cal_valid, Hd.
Qed.

(** Adding [n] days adds [n] to the day number. *)
Lemma days_from_civil_add_days (n : Z) (d : date) :
  0 <= n -> cal_valid d ->
  days_from_civil (add_days n d) = days_from_civil d + n.
Proof.
  intros Hn Hd. unfold add_days. destruct (Z.leb_spec 0 n); [|lia].
  rewrite days_from_civil_iter by exact Hd. lia.
Qed.

Lemma year_next_day (d : date) : year d <= year (next_day d).
Proof.
  unfold next_day.
  destruct (_ <? _); [|destruct (_ <? _)]; cbn [year]; lia.
Qed.

Lemma year_iter_mono (n k : nat) (d : date) :
  year (Nat.iter n next_day d) <= year (Nat.iter (n + k) next_day d).
Proof.
  induction k as [|k IH]; [rewrite Nat.add_0_r; lia|].
  rewrite Nat.add_succ_r, Nat.iter_succ.
  pose proof (year_next_day (Nat.iter (n + k) next_day d)). lia.
Qed.

Lemma year_add_days_mono (a b : Z) (d : date) :
  0 <= a <= b -> year (add_days a d) <= year (add_days b d).
Proof.
  intros H. unfold add_days.
  destruct (Z.leb_spec 0 a); [|lia]. destruct (Z.leb_spec 0 b); [|lia].
  replace (Z.to_nat b) with (Z.to_nat a + Z.to_nat (b - a))%nat by lia.
  apply year_iter_mono.
Qed.

Lemma add_days_0 (d : date) : add_days 0 d = d.
Proof. reflexivity. Qed.

Lemma valid_cal_valid (d : date) : valid_date d -> cal_valid d.
Proof. unfold valid_date, cal_valid. tauto. Qed.

(** A date stays one that [format] writes with four digits as long as a
    later one does. *)
Lemma add_days_valid (k n : Z) (d : date) :
  valid_date d -> 0 <= k <= n -> year (add_days n d) <= 9999 ->
  valid_date (add_days k d).
Proof.
  intros Hd Hk Hn.
  pose proof (add_days_cal_valid k d ltac:(lia) (valid_cal_valid d Hd))
    as [Hm Hday].
  pose proof (year_add_days_mono 0 k d ltac:(lia)) as H0.
  pose proof (year_add_days_mono k n d ltac:(lia)) as H1.
  rewrite add_days_0 in H0. destruct Hd as (Hy & _ & _).
  unfold valid_date. repeat split; lia.
Qed.

(** [format] writes different dates differently. *)
Lemma format_inj (a b : date) :
  valid_date a -> valid_date b ->
  format (Valid a) = format (Valid b) -> a = b.
Proof.
  intros Ha Hb E. apply (f_equal parse) in E.
  rewrite !parse_format in E by assumption. congruence.
Qed.

(** Two different offsets from a date give different texts. *)
Lemma format_add_days_inj (a b n : Z) (d : date) :
  valid_date d -> 0 <= a <= n -> 0 <= b <= n ->
  year (add_days n d) <= 9999 ->
  format (Valid (add_days a d)) = format (Valid (add_days b d)) -> a = b.
Proof.
  intros Hd Ha Hb Hn E.
  apply format_inj in E; [|eapply add_days_valid; eassumption..].
  apply (f_equal days_from_civil) in E.
  rewrite !days_from_civil_add_days in E
    by (try lia; apply valid_cal_valid, Hd).
  lia.
Qed.

(** The weekday moves with the days added. *)
Lemma weekday_add_days (n : Z) (d : date) :
  0 <= n -> cal_valid d -> weekday (add_days n d) = (weekday d + n) mod 7.
Proof.
  intros Hn Hd. unfold weekday.
  rewrite days_from_civil_add_days by assumption.
  Z.to_euclidean_division_equations; lia.
Qed.

End DayNumbers.

(* ===================================================================== *)
(** * Further properties of the store *)
(* ===================================================================== *)

Section StoreMore.

(** X1.  Every store the handlers of either copy of the server can reach
    from the empty one, whatever writes fail on the way, keeps the
    invariant: the ids of each table are unique and not above the
    AUTOINCREMENT counter, [completed] is 0 or 1, and every schedule row
    belongs to a question that is there. *)
Theorem reachable_store_invariant (s : db) : reachable s -> wf s.
Proof.
  intros Hreach. induction Hreach as [|s s' _ IH Hstep].
  - apply wf_empty.
  - exact (step_wf s s' IH Hstep).
Qed.

Lemma reachable_created (t : string) (now : Dayjs.date) (s : db) :
  reachable s -> reachable (created t now s).
Proof.
  intros H. eapply reachable_step; [exact H|].
  eapply (step_post_question s true (Some t) now None).
  apply post_question_ok. exact I.
Qed.

Lemma reachable_store_invariant_witness :
  wf (created "LC 43" (Dayjs.mkDate 2024 1 1) empty_db).
Proof.
  apply (reachable_store_invariant
           (created "LC 43" (Dayjs.mkDate 2024 1 1) empty_db)).
  apply reachable_created, reachable_empty.
Defined.

(** ** The reviews of a question *)

Lemma add_add (a b : Z) (x : Dayjs.t) :
  0 <= a -> 0 <= b -> Dayjs.add b (Dayjs.add a x) = Dayjs.add (a + b) x.
Proof.
  intros Ha Hb. destruct x as [d|]; [|reflexivity]. cbn [Dayjs.add].
  rewrite add_days_add_days by assumption. reflexivity.
Qed.

Lemma due_rows_dates (qid last : Z) (x : Dayjs.t) :
  map s_due_date (due_rows qid last x INTERVALS)
  = map (fun k => Dayjs.format (Dayjs.add k x)) offsets.
Proof.
  unfold INTERVALS, offsets. cbn [due_rows map s_due_date].
  rewrite !add_add by lia. reflexivity.
Qed.

Lemma reviews_of_fresh (qid : Z) (s : db) :
  wf s -> questions_seq s < qid -> reviews_of qid s = [].
Proof.
  intros Hwf Hq. unfold reviews_of.
  pose proof (wf_owner s Hwf) as Ho. pose proof (wf_question_seq s Hwf) as Hs.
  rewrite List.Forall_forall in Ho, Hs.
  induction (schedule s) as [|r rows IH]; [reflexivity|]. cbn [List.filter].
  destruct (Z.eqb_spec (s_question_id r) qid) as [E|E].
  - exfalso. specialize (Ho r (or_introl eq_refl)).
    apply has_question_In, in_map_iff in Ho as (q & Eq & Hin).
    specialize (Hs q Hin). lia.
  - apply IH. intros x Hx. apply Ho. right. exact Hx.
Qed.

Lemma filter_all {A} (p : A -> bool) (l : list A) :
  (forall x, In x l -> p x = true) -> List.filter p l = l.
Proof.
  induction l as [|a l IH]; intros H; [reflexivity|]. cbn.
  rewrite (H a) by (left; reflexivity). f_equal. apply IH.
  intros x Hx. apply H. right. exact Hx.
Qed.

Lemma filter_none {A} (p : A -> bool) (l : list A) :
  (forall x, In x l -> p x = false) -> List.filter p l = [].
Proof.
  induction l as [|a l IH]; intros H; [reflexivity|]. cbn.
  rewrite (H a) by (left; reflexivity). apply IH.
  intros x Hx. apply H. right. exact Hx.
Qed.

Lemma due_rows_owner (qid last : Z) (x : Dayjs.t) (ivs : list Z) (r : schedule_row) :
  In r (due_rows qid last x ivs) -> s_question_id r = qid /\ s_completed r = 0.
Proof.
  intros Hr. destruct (due_rows_spec qid ivs last x) as (F & _ & _).
  rewrite List.Forall_forall in F. specialize (F r Hr). tauto.
Qed.

Lemma reviews_of_with_rows (q qid last : Z) (x : Dayjs.t) (ivs : list Z)
      (s : db) :
  reviews_of q (with_rows (due_rows qid last x ivs) s)
  = reviews_of q s ++ (if q =? qid then due_rows qid last x ivs else []).
Proof.
  unfold reviews_of, with_rows; cbn [schedule]. rewrite List.filter_app.
  f_equal. destruct (Z.eqb_spec q qid) as [->|E].
  - apply filter_all. intros r Hr. apply due_rows_owner in Hr as [-> _].
    apply Z.eqb_refl.
  - apply filter_none. intros r Hr. apply due_rows_owner in Hr as [Hq _].
    apply Z.eqb_neq. congruence.
Qed.

Lemma reviews_of_toggled (q id : Z) (s : db) :
  reviews_of q (toggled id s) = map (toggle_row id) (reviews_of q s).
Proof.
  unfold reviews_of, toggled; cbn [schedule].
  induction (schedule s) as [|r rows IH]; [reflexivity|].
  cbn [map List.filter]. rewrite toggle_row_question.
  destruct (s_question_id r =? q); cbn [map]; rewrite IH; reflexivity.
Qed.

Lemma none_or_six_with_question (t c : string) (s : db) :
  wf s ->
  (forall q, In q (questions s) -> none_or_six q s) ->
  forall q, In q (questions (with_question t c s)) ->
            none_or_six q (with_question t c s).
Proof.
  intros Hwf H q Hq. unfold with_question in Hq; cbn [questions] in Hq.
  apply in_app_or in Hq as [Hq|[<-|[]]].
  - apply (H q Hq).
  - left. apply (reviews_of_fresh _ s Hwf). cbn [q_id]. lia.
Qed.

Lemma none_or_six_created (t : string) (now : Dayjs.date) (s : db) :
  wf s ->
  (forall q, In q (questions s) -> none_or_six q s) ->
  forall q, In q (questions (created t now s)) ->
            none_or_six q (created t now s).
Proof.
  intros Hwf H q Hq. unfold none_or_six, created.
  rewrite reviews_of_with_rows.
  change (questions (created t now s))
    with (questions s ++ [mkQuestion (questions_seq s + 1) t (today_of now) ""])
    in Hq.
  change (reviews_of (q_id q) (with_question t (today_of now) s))
    with (reviews_of (q_id q) s).
  apply in_app_or in Hq as [Hq|[<-|[]]].
  - pose proof (wf_question_seq s Hwf) as Hs.
    rewrite List.Forall_forall in Hs. specialize (Hs q Hq).
    destruct (Z.eqb_spec (q_id q) (questions_seq s + 1)); [lia|].
    rewrite app_nil_r. apply (H q Hq).
  - right. cbn [q_id q_created_at]. rewrite Z.eqb_refl.
    rewrite (reviews_of_fresh _ s Hwf) by lia. cbn [app].
    apply due_rows_dates.
Qed.

Lemma none_or_six_toggled (id : Z) (s : db) :
  (forall q, In q (questions s) -> none_or_six q s) ->
  forall q, In q (questions (toggled id s)) -> none_or_six q (toggled id s).
Proof.
  intros H q Hq. unfold none_or_six. rewrite reviews_of_toggled.
  destruct (H q Hq) as [E|E].
  - left. rewrite E. reflexivity.
  - right. rewrite map_map. rewrite <- E. apply map_ext. apply toggle_row_due.
Qed.

Lemma none_or_six_noted (id : Z) (notes : string) (s : db) :
  (forall q, In q (questions s) -> none_or_six q s) ->
  forall q, In q (questions (noted id notes s)) ->
            none_or_six q (noted id notes s).
Proof.
  intros H q Hq. cbn [noted questions] in Hq.
  apply in_map_iff in Hq as (q0 & <- & Hq0).
  specialize (H q0 Hq0). unfold none_or_six in *.
  change (reviews_of (q_id (set_notes_row id notes q0)) (noted id notes s))
    with (reviews_of (q_id (set_notes_row id notes q0)) s).
  rewrite set_notes_row_id.
  replace (q_created_at (set_notes_row id notes q0)) with (q_created_at q0)
    by (unfold set_notes_row; destruct (q_id q0 =? id); reflexivity).
  exact H.
Qed.

Lemma reachable_none_or_six (s : db) :
  reachable s -> forall q, In q (questions s) -> none_or_six q s.
Proof.
  induction 1 as [|s s' Hr IH Hstep]; [intros q []|].
  pose proof (reachable_wf s Hr) as Hwf.
  destruct Hstep as [fk title now plan r plan' s1 E|id plan r plan' s1 E
                    |id notes plan r plan' s1 E|id notes plan r plan' s1 E].
  - pose proof (post_question_store fk title now plan s) as H.
    rewrite E in H. cbn in H.
    destruct H as [->|(t & _ & [->| ->])];
      auto using none_or_six_with_question, none_or_six_created.
  - destruct (decide (plan = Some O)) as [->|Hp].
    + rewrite post_toggle_fault in E. injection E as _ _ <-. exact IH.
    + destruct (post_toggle_run id plan s Hp) as [p E'].
      rewrite E' in E. injection E as _ _ <-.
      apply none_or_six_toggled, IH.
  - pose proof (put_notes_1_store id notes plan s) as H.
    rewrite E in H. cbn in H.
    destruct H as [->| ->]; auto using none_or_six_noted.
  - pose proof (put_notes_2_store id notes plan s) as H.
    rewrite E in H. cbn in H.
    destruct H as [->| ->]; auto using none_or_six_noted.
Qed.

(** X2.  In every store the server can reach, whatever writes failed on
    the way, a question has either no review at all or exactly six, due on
    the day its [created_at] writes plus 1, 4, 10, 22, 46 and 94 days, in
    table order: toggles and notes never change a due date, and a review
    set is never left half written. *)
Theorem reviews_none_or_six (s : db) (q : question) :
  reachable s -> In q (questions s) ->
  reviews_of (q_id q) s = []
  \/ (length (reviews_of (q_id q) s) = 6%nat
      /\ map s_due_date (reviews_of (q_id q) s)
         = map (fun k => Dayjs.format
                           (Dayjs.add k (Dayjs.parse (q_created_at q))))
               [1; 4; 10; 22; 46; 94]).
Proof.
  intros Hr Hq. destruct (reachable_none_or_six s Hr q Hq) as [E|E].
  - left. exact E.
  - right. split; [|exact E].
    apply (f_equal (@length string)) in E.
    rewrite length_map in E. exact E.
Qed.

Lemma reviews_none_or_six_witness :
  let s := created "LC 43" (Dayjs.mkDate 2024 1 1) empty_db in
  let q := mkQuestion 1 "LC 43" "2024-01-01" "" in
  reviews_of (q_id q) s = []
  \/ (length (reviews_of (q_id q) s) = 6%nat
      /\ map s_due_date (reviews_of (q_id q) s)
         = map (fun k => Dayjs.format
                           (Dayjs.add k (Dayjs.parse (q_created_at q))))
               [1; 4; 10; 22; 46; 94]).
Proof.
  apply (reviews_none_or_six
           (created "LC 43" (Dayjs.mkDate 2024 1 1) empty_db)
           (mkQuestion 1 "LC 43" "2024-01-01" "")).
  - apply reachable_created, reachable_empty.
  - left. reflexivity.
Defined.

(** ** Notes written and read *)

Lemma get_notes_noted_other (id id' : Z) (notes : string) (s : db) :
  id' <> id -> get_notes id' (noted id notes s) = get_notes id' s.
Proof.
  intros Hne. unfold get_notes, noted; cbn [questions].
  induction (questions s) as [|q qs IH]; [reflexivity|].
  cbn [map List.find]. rewrite set_notes_row_id.
  destruct (Z.eqb_spec (q_id q) id') as [E|E]; [|exact IH].
  unfold set_notes_row. destruct (Z.eqb_spec (q_id q) id); [congruence|].
  reflexivity.
Qed.

Lemma noted_titles (id : Z) (notes : string) (s : db) :
  map q_title (questions (noted id notes s)) = map q_title (questions s).
Proof.
  cbn [noted questions]. rewrite map_map. apply map_ext.
  intros q. unfold set_notes_row. destruct (q_id q =? id); reflexivity.
Qed.

(** X3.  After [PUT /api/questions/:id/notes] for a question that is in
    the store, [GET /api/questions/:id/notes] answers the text that was
    sent (the empty text if none was sent); the notes of every other
    question, the titles and the schedule are as before.  Both copies of
    the handler leave the same store. *)
Theorem setNotes_then_getNotes (id : Z) (notes : option string) (s : db) :
  In id (map q_id (questions s)) ->
  let s' := (run (put_notes_2 id notes) s).2 in
  get_notes id s' = or_default notes ""
  /\ (forall id', id' <> id -> get_notes id' s' = get_notes id' s)
  /\ map q_title (questions s') = map q_title (questions s)
  /\ schedule s' = schedule s
  /\ (run (put_notes_1 id notes) s).2 = s'.
Proof.
  intros Hid. cbn zeta. rewrite run_put_notes_2, run_put_notes_1. cbn [snd].
  split; [apply get_notes_noted, Hid|].
  split; [intros id' Hne; apply get_notes_noted_other, Hne|].
  split; [apply noted_titles|]. split; reflexivity.
Qed.

Lemma setNotes_then_getNotes_witness :
  let s := created "LC 43" (Dayjs.mkDate 2024 1 1) empty_db in
  let s' := (run (put_notes_2 1 (Some "two pointers"%string)) s).2 in
  get_notes 1 s' = "two pointers"%string
  /\ (forall id', id' <> 1 -> get_notes id' s' = get_notes id' s)
  /\ map q_title (questions s') = map q_title (questions s)
  /\ schedule s' = schedule s
  /\ (run (put_notes_1 1 (Some "two pointers"%string)) s).2 = s'.
Proof.
  apply (setNotes_then_getNotes
           1 (Some "two pointers"%string)
           (created "LC 43" (Dayjs.mkDate 2024 1 1) empty_db)).
  left. reflexivity.
Defined.

Lemma get_notes_absent (id : Z) (s : db) :
  ~ In id (map q_id (questions s)) -> get_notes id s = ""%string.
Proof.
  intros Hid. unfold get_notes.
  destruct (List.find _ (questions s)) as [q|] eqn:E; [|reflexivity].
  apply find_some in E as [Hq E]. apply Z.eqb_eq in E.
  exfalso. apply Hid. rewrite <- E. apply in_map, Hq.
Qed.

Lemma get_notes_app_fresh (id : Z) (qs : list question) (q : question)
      (a b : Z) :
  ~ In id (map q_id qs) -> q_id q = id ->
  get_notes id (mkDb (qs ++ [q]) [] a b) = q_notes q.
Proof.
  intros Hid Hq. unfold get_notes; cbn [questions].
  induction qs as [|x qs IH]; cbn [app List.find map In] in *.
  - rewrite Hq, Z.eqb_refl. reflexivity.
  - destruct (Z.eqb_spec (q_id x) id) as [E|E]; [tauto|].
    apply IH. tauto.
Qed.

(** X4.  The notes of an item just created read as the empty text, and so
    do the notes of an id that has no question: the answer of
    [GET /api/questions/:id/notes] does not tell the two apart. *)
Theorem getNotes_empty (fk : bool) (t : string) (now : Dayjs.date) (s : db) :
  wf s ->
  let s' := (run (post_question fk (Some t) now) s).2 in
  get_notes (questions_seq s + 1) s' = ""%string
  /\ (forall id, ~ In id (map q_id (questions s')) ->
                 get_notes id s' = ""%string).
Proof.
  intros Hwf. cbn zeta. unfold run. rewrite post_question_ok by exact I.
  cbn [snd]. split; [|intros id; apply get_notes_absent].
  change (get_notes (questions_seq s + 1) (created t now s))
    with (get_notes (questions_seq s + 1)
            (mkDb (questions s ++
                   [mkQuestion (questions_seq s + 1) t (today_of now) ""])
                  [] 0 0)).
  rewrite (get_notes_app_fresh (questions_seq s + 1)); [reflexivity| |reflexivity].
  intros Hin. apply in_map_iff in Hin as (q & E & Hq).
  pose proof (wf_question_seq s Hwf) as Hs.
  rewrite List.Forall_forall in Hs. specialize (Hs q Hq). lia.
Qed.

Lemma getNotes_empty_witness :
  let s' := (run (post_question true (Some "LC 43"%string)
                                (Dayjs.mkDate 2024 1 1)) empty_db).2 in
  get_notes (questions_seq empty_db + 1) s' = ""%string
  /\ (forall id, ~ In id (map q_id (questions s')) ->
                 get_notes id s' = ""%string).
Proof.
  apply (getNotes_empty true "LC 43" (Dayjs.mkDate 2024 1 1) empty_db).
  apply wf_empty.
Defined.

(** ** A toggle and the counts of the calendar *)

Lemma map_toggle_other (id : Z) (l : list schedule_row) :
  ~ In id (map s_id l) -> map (toggle_row id) l = l.
Proof.
  intros Hid. rewrite <- (map_id l) at 2. apply map_ext_in.
  intros r Hr. unfold toggle_row.
  destruct (Z.eqb_spec (s_id r) id) as [E|]; [|reflexivity].
  exfalso. apply Hid. rewrite <- E. apply in_map, Hr.
Qed.

Lemma schedule_split (r : schedule_row) (s : db) :
  wf s -> In r (schedule s) ->
  exists l1 l2,
    schedule s = l1 ++ r :: l2
    /\ schedule (toggled (s_id r) s)
       = l1 ++ toggle_row (s_id r) r :: l2.
Proof.
  intros Hwf Hr. pose proof (wf_schedule_ids s Hwf) as Hnd.
  apply in_split in Hr as (l1 & l2 & E). exists l1, l2.
  split; [exact E|]. cbn [toggled schedule]. rewrite E in *.
  rewrite map_app in Hnd. cbn [map] in Hnd.
  apply NoDup_app in Hnd as (_ & H1 & H2).
  apply NoDup_cons in H2 as [H2 _].
  rewrite map_app. cbn [map]. rewrite !map_toggle_other; [reflexivity| |].
  - intros Hin. apply H2, list_elem_of_In, Hin.
  - intros Hin. apply (H1 (s_id r)); [apply list_elem_of_In, Hin|].
    left.
Qed.

Lemma length_filter_insert {A} (p : A -> bool) (l1 l2 : list A) (x : A) :
  length (List.filter p (l1 ++ x :: l2))
  = (length (List.filter p (l1 ++ l2)) + (if p x then 1 else 0))%nat.
Proof.
  rewrite !List.filter_app, !length_app. cbn [List.filter].
  destruct (p x); cbn [length]; lia.
Qed.

Lemma completed_of_toggled_other (id id' : Z) (s : db) :
  id' <> id -> completed_of id' (toggled id s) = completed_of id' s.
Proof.
  intros Hne. unfold completed_of, toggled; cbn [schedule].
  induction (schedule s) as [|r rows IH]; [reflexivity|].
  cbn [map List.find]. rewrite toggle_row_id.
  destruct (Z.eqb_spec (s_id r) id') as [E|E]; [|exact IH].
  unfold toggle_row. destruct (Z.eqb_spec (s_id r) id); [congruence|].
  reflexivity.
Qed.

(** X5.  In a store that keeps the invariant, toggling a review moves
    exactly one count of the calendar by one: the count of its due date
    goes down by one if the review was not complete and up by one if it
    was; the counts of all other dates, the flags of all other reviews
    and the questions are as before. *)
Theorem toggle_moves_one_count (r : schedule_row) (s : db) :
  wf s -> In r (schedule s) ->
  let s' := (run (post_toggle (s_id r)) s).2 in
  (forall d, d <> s_due_date r -> outstanding d s' = outstanding d s)
  /\ (s_completed r = 0 ->
      S (outstanding (s_due_date r) s') = outstanding (s_due_date r) s)
  /\ (s_completed r <> 0 ->
      outstanding (s_due_date r) s' = S (outstanding (s_due_date r) s))
  /\ (forall id', id' <> s_id r -> completed_of id' s' = completed_of id' s)
  /\ questions s' = questions s.
Proof.
  intros Hwf Hr. cbn zeta. rewrite run_post_toggle. cbn [snd].
  destruct (schedule_split r s Hwf Hr) as (l1 & l2 & E & E').
  assert (Hcount : forall d,
             Nat.add (outstanding d (toggled (s_id r) s))
                     (if (s_completed r =? 0) && String.eqb (s_due_date r) d
                      then 1%nat else 0%nat)
             = Nat.add (outstanding d s)
                       (if negb (s_completed r =? 0)
                           && String.eqb (s_due_date r) d
                        then 1%nat else 0%nat)).
  { intros d. unfold outstanding. rewrite E, E', !length_filter_insert.
    unfold toggle_row. rewrite Z.eqb_refl. cbn [s_completed s_due_date].
    unfold sql_not. destruct (s_completed r =? 0); cbn [negb andb];
      change (1 =? 0) with false; change (0 =? 0) with true;
      cbn [andb]; destruct (String.eqb (s_due_date r) d); lia. }
  split; [|split; [|split; [|split]]].
  - intros d Hd. specialize (Hcount d).
    destruct (String.eqb_spec (s_due_date r) d); [congruence|].
    rewrite !andb_false_r in Hcount. lia.
  - intros Hc. specialize (Hcount (s_due_date r)).
    rewrite String.eqb_refl in Hcount.
    destruct (Z.eqb_spec (s_completed r) 0); [|contradiction].
    cbn [andb negb] in Hcount. lia.
  - intros Hc. specialize (Hcount (s_due_date r)).
    rewrite String.eqb_refl in Hcount.
    destruct (Z.eqb_spec (s_completed r) 0); [contradiction|].
    cbn [andb negb] in Hcount. lia.
  - intros id' Hne. apply completed_of_toggled_other, Hne.
  - reflexivity.
Qed.

Lemma toggle_moves_one_count_witness :
  let s := created "LC 43" (Dayjs.mkDate 2024 1 1) empty_db in
  let r := mkSchedule 1 1 "2024-01-02" 0 in
  let s' := (run (post_toggle (s_id r)) s).2 in
  (forall d, d <> s_due_date r -> outstanding d s' = outstanding d s)
  /\ (s_completed r = 0 ->
      S (outstanding (s_due_date r) s') = outstanding (s_due_date r) s)
  /\ (s_completed r <> 0 ->
      outstanding (s_due_date r) s' = S (outstanding (s_due_date r) s))
  /\ (forall id', id' <> s_id r -> completed_of id' s' = completed_of id' s)
  /\ questions s' = questions s.
Proof.
  apply (toggle_moves_one_count
           (mkSchedule 1 1 "2024-01-02" 0)
           (created "LC 43" (Dayjs.mkDate 2024 1 1) empty_db)).
  - apply wf_created, wf_empty.
  - left. reflexivity.
Defined.

(** ** A creation, the calendar and the list of a day *)


Lemma due_rows_today (qid last : Z) (now : Dayjs.date) :
  Dayjs.valid_date now ->
  map s_due_date (due_rows qid last (Dayjs.parse (today_of now)) INTERVALS)
  = dates_from now.
Proof.
  intros Hv. rewrite due_rows_dates. unfold today_of.
  rewrite parse_format by exact Hv. reflexivity.
Qed.

Lemma offsets_range (k : Z) : In k offsets -> 1 <= k <= 94.
Proof. unfold offsets. cbn [In]. lia. Qed.

Lemma NoDup_offsets : NoDup offsets.
Proof.
  unfold offsets.
  repeat (apply NoDup_cons; split;
          [rewrite list_elem_of_In; cbn [In]; lia|]).
  apply NoDup_nil_2.
Qed.

Lemma NoDup_dates_from (now : Dayjs.date) :
  Dayjs.valid_date now -> Dayjs.year (Dayjs.add_days 94 now) <= 9999 ->
  NoDup (dates_from now).
Proof.
  intros Hv Hy. unfold dates_from.
  change (map ?f offsets) with (f <$> offsets).
  apply NoDup_fmap_2_strong; [|apply NoDup_offsets].
  intros a b Ha Hb E. apply list_elem_of_In, offsets_range in Ha, Hb.
  eapply (format_add_days_inj a b 94 now); try eassumption; lia.
Qed.

Lemma today_not_due (now : Dayjs.date) :
  Dayjs.valid_date now -> Dayjs.year (Dayjs.add_days 94 now) <= 9999 ->
  ~ In (today_of now) (dates_from now).
Proof.
  intros Hv Hy Hin. unfold dates_from in Hin.
  apply in_map_iff in Hin as (k & E & Hk). apply offsets_range in Hk.
  unfold today_of in E. rewrite <- (add_days_0 now) in E at 2.
  apply (format_add_days_inj k 0 94 now) in E; try assumption; lia.
Qed.

Lemma count_in_NoDup (d : string) (l : list string) :
  NoDup l ->
  (In d l -> length (List.filter (fun x => String.eqb x d) l) = 1%nat)
  /\ (~ In d l -> length (List.filter (fun x => String.eqb x d) l) = 0%nat).
Proof.
  induction l as [|a l IH]; intros Hnd; [split; [intros []|reflexivity]|].
  apply NoDup_cons in Hnd as [Ha Hnd]. rewrite list_elem_of_In in Ha.
  cbn [List.filter In]. destruct (IH Hnd) as [IH1 IH0].
  destruct (String.eqb_spec a d) as [->|E]; cbn [length].
  - split; [intros _; rewrite IH0 by exact Ha; reflexivity|tauto].
  - split; [intros [?|Hin]; [congruence|apply IH1, Hin]|].
    intros Hn. apply IH0. tauto.
Qed.

Lemma filter_map_swap' {A B} (f : A -> B) (p : B -> bool) (l : list A) :
  List.filter p (map f l) = map f (List.filter (fun x => p (f x)) l).
Proof.
  induction l as [|a l IH]; [reflexivity|]. cbn [map List.filter].
  destruct (p (f a)); cbn [map]; rewrite IH; reflexivity.
Qed.

(** The rows a creation adds, seen from a due date. *)
Lemma outstanding_created (d t : string) (now : Dayjs.date) (s : db) :
  Dayjs.valid_date now ->
  outstanding d (created t now s)
  = (outstanding d s
     + length (List.filter (fun x => String.eqb x d) (dates_from now)))%nat.
Proof.
  intros Hv. unfold outstanding, created, with_rows; cbn [schedule].
  change (schedule (with_question t (today_of now) s)) with (schedule s).
  rewrite List.filter_app, length_app. f_equal.
  rewrite <- (due_rows_today (questions_seq s + 1) (schedule_seq s) now Hv).
  rewrite filter_map_swap', length_map. reflexivity.
Qed.

(** X6.  Creating an item on a valid day raises the count of the calendar
    by one on each of its six due dates and leaves the count of every
    other date as it was (here the last due date still has a year of four
    digits). *)
Theorem creation_raises_six_counts
        (fk : bool) (t : string) (now : Dayjs.date) (s : db) :
  Dayjs.valid_date now -> Dayjs.year (Dayjs.add_days 94 now) <= 9999 ->
  let s' := (run (post_question fk (Some t) now) s).2 in
  let dates := map (fun k => Dayjs.format
                               (Dayjs.Valid (Dayjs.add_days k now)))
                   [1; 4; 10; 22; 46; 94] in
  forall d,
    (In d dates -> outstanding d s' = S (outstanding d s))
    /\ (~ In d dates -> outstanding d s' = outstanding d s).
Proof.
  intros Hv Hy. cbn zeta. unfold run.
  rewrite post_question_ok by exact I. cbn [snd]. intros d.
  rewrite outstanding_created by exact Hv.
  destruct (count_in_NoDup d (dates_from now)
                           (NoDup_dates_from now Hv Hy)) as [H1 H0].
  split; intros Hd; [rewrite H1 by exact Hd|rewrite H0 by exact Hd]; lia.
Qed.

Lemma creation_raises_six_counts_witness :
  let now := Dayjs.mkDate 2024 1 1 in
  let s' := (run (post_question true (Some "LC 43"%string) now) empty_db).2 in
  let dates := map (fun k => Dayjs.format
                               (Dayjs.Valid (Dayjs.add_days k now)))
                   [1; 4; 10; 22; 46; 94] in
  let d := "2024-01-05"%string in
  (In d dates -> outstanding d s' = S (outstanding d empty_db))
  /\ (~ In d dates -> outstanding d s' = outstanding d empty_db).
Proof.
  refine (creation_raises_six_counts
            true "LC 43" (Dayjs.mkDate 2024 1 1) empty_db _ _ "2024-01-05").
  - unfold Dayjs.valid_date. vm_compute. intuition discriminate.
  - vm_compute. discriminate.
Defined.

Lemma day_number_format (d : Dayjs.date) :
  Dayjs.valid_date d ->
  day_number (Dayjs.format (Dayjs.Valid d)) = Some (Calendar.days_from_civil d).
Proof. intros Hv. unfold day_number. rewrite parse_format by exact Hv. reflexivity. Qed.

Lemma reviews_of_created (t : string) (now : Dayjs.date) (s : db) :
  wf s ->
  reviews_of (questions_seq s + 1) (created t now s)
  = due_rows (questions_seq s + 1) (schedule_seq s)
             (Dayjs.parse (today_of now)) INTERVALS.
Proof.
  intros Hwf. unfold created. rewrite reviews_of_with_rows, Z.eqb_refl.
  change (reviews_of (questions_seq s + 1) (with_question t (today_of now) s))
    with (reviews_of (questions_seq s + 1) s).
  rewrite (reviews_of_fresh _ s Hwf) by lia. reflexivity.
Qed.

(** X7.  The six due dates of an item created on a valid day are six
    different texts, and read back as dates they lie 1, 4, 10, 22, 46 and
    94 days after the day of creation in the count of days: the reviews
    follow one another at 3, 6, 12, 24 and 48 days. *)
Theorem due_dates_distinct_and_spaced
        (fk : bool) (t : string) (now : Dayjs.date) (s : db) :
  wf s ->
  Dayjs.valid_date now -> Dayjs.year (Dayjs.add_days 94 now) <= 9999 ->
  let s' := (run (post_question fk (Some t) now) s).2 in
  let dates := map s_due_date (reviews_of (questions_seq s + 1) s') in
  NoDup dates
  /\ map day_number dates
     = map (fun k => Some (Calendar.days_from_civil now + k))
           [1; 4; 10; 22; 46; 94].
Proof.
  intros Hwf Hv Hy. cbn zeta. unfold run.
  rewrite post_question_ok by exact I. cbn [snd].
  rewrite reviews_of_created by exact Hwf.
  rewrite due_rows_today by exact Hv.
  split; [apply NoDup_dates_from; assumption|].
  unfold dates_from. rewrite map_map. apply map_ext_in.
  intros k Hk. apply offsets_range in Hk.
  rewrite day_number_format
    by (apply (add_days_valid k 94); [assumption|lia|assumption]).
  rewrite days_from_civil_add_days
    by (try lia; apply valid_cal_valid, Hv).
  reflexivity.
Qed.

Lemma due_dates_distinct_and_spaced_witness :
  let now := Dayjs.mkDate 2024 1 1 in
  let s' := (run (post_question true (Some "LC 43"%string) now) empty_db).2 in
  let dates := map s_due_date (reviews_of (questions_seq empty_db + 1) s') in
  NoDup dates
  /\ map day_number dates
     = map (fun k => Some (Calendar.days_from_civil now + k))
           [1; 4; 10; 22; 46; 94].
Proof.
  apply (due_dates_distinct_and_spaced
           true "LC 43" (Dayjs.mkDate 2024 1 1) empty_db).
  - apply wf_empty.
  - unfold Dayjs.valid_date. vm_compute. intuition discriminate.
  - vm_compute. discriminate.
Defined.

Lemma filter_owner_old (r : schedule_row) (q : question) (s : db) :
  wf s -> In r (schedule s) -> questions_seq s < q_id q ->
  List.filter (fun x => s_question_id r =? q_id x) (questions s ++ [q])
  = List.filter (fun x => s_question_id r =? q_id x) (questions s).
Proof.
  intros Hwf Hr Hq. rewrite List.filter_app. cbn [List.filter].
  pose proof (wf_owner s Hwf) as Ho. pose proof (wf_question_seq s Hwf) as Hs.
  rewrite List.Forall_forall in Ho, Hs. specialize (Ho r Hr).
  apply has_question_In, in_map_iff in Ho as (q0 & E & Hq0).
  specialize (Hs q0 Hq0).
  destruct (Z.eqb_spec (s_question_id r) (q_id q)); [lia|].
  apply app_nil_r.
Qed.

Lemma filter_owner_new (qid : Z) (q : question) (s : db) :
  wf s -> questions_seq s < qid -> q_id q = qid ->
  List.filter (fun x => qid =? q_id x) (questions s ++ [q]) = [q].
Proof.
  intros Hwf Hlt Hq. rewrite List.filter_app. cbn [List.filter].
  rewrite Hq, Z.eqb_refl. rewrite filter_none; [reflexivity|].
  intros x Hx. pose proof (wf_question_seq s Hwf) as Hs.
  rewrite List.Forall_forall in Hs. specialize (Hs x Hx).
  apply Z.eqb_neq. lia.
Qed.

Lemma flat_map_ext_In {A B} (f g : A -> list B) (l : list A) :
  (forall a, In a l -> f a = g a) -> flat_map f l = flat_map g l.
Proof.
  induction l as [|a l IH]; intros H; [reflexivity|]. cbn [flat_map].
  rewrite (H a) by (left; reflexivity). f_equal. apply IH.
  intros x Hx. apply H. right. exact Hx.
Qed.

(** The list of a day after a creation: the list before, and then the
    reviews of the new item due that day. *)
Lemma select_tasks_created (d t : string) (now : Dayjs.date) (s : db) :
  wf s ->
  select_tasks d (created t now s)
  = select_tasks d s
    ++ map (fun r => mkTask (s_id r) (s_due_date r) (s_completed r) t
                            (questions_seq s + 1) "")
           (List.filter (fun r => String.eqb (s_due_date r) d)
              (due_rows (questions_seq s + 1) (schedule_seq s)
                        (Dayjs.parse (today_of now)) INTERVALS)).
Proof.
  intros Hwf. unfold select_tasks at 1.
  change (schedule (created t now s))
    with (schedule s ++ due_rows (questions_seq s + 1) (schedule_seq s)
                                 (Dayjs.parse (today_of now)) INTERVALS).
  change (questions (created t now s))
    with (questions s
          ++ [mkQuestion (questions_seq s + 1) t (today_of now) ""]).
  rewrite flat_map_app. f_equal.
  - unfold select_tasks. apply flat_map_ext_In. intros r Hr.
    rewrite filter_owner_old by (try assumption; cbn; lia). reflexivity.
  - set (rows := due_rows _ _ _ _).
    assert (Hrows : forall r, In r rows ->
                              s_question_id r = questions_seq s + 1).
    { intros r Hr. apply due_rows_owner in Hr. tauto. }
    induction rows as [|r rows IH]; [reflexivity|].
    cbn [flat_map List.filter].
    rewrite IH by (intros x Hx; apply Hrows; right; exact Hx).
    rewrite (Hrows r (or_introl eq_refl)).
    rewrite filter_owner_new by (try assumption; cbn; lia).
    destruct (String.eqb (s_due_date r) d); reflexivity.
Qed.

Lemma filter_head_NoDup (d : string) (r : schedule_row)
      (rest : list schedule_row) :
  s_due_date r = d -> NoDup (map s_due_date (r :: rest)) ->
  List.filter (fun x => String.eqb (s_due_date x) d) (r :: rest) = [r].
Proof.
  intros <- Hnd. cbn [map] in Hnd. apply NoDup_cons in Hnd as [Hr _].
  rewrite list_elem_of_In in Hr. cbn [List.filter].
  rewrite String.eqb_refl. f_equal. apply filter_none.
  intros x Hx. apply String.eqb_neq. intros E. apply Hr.
  rewrite <- E. apply in_map, Hx.
Qed.

(** X8.  After an item is created on a valid day, the list of the day
    after holds what it held and, last, the first review of the new item,
    not complete, with the title given and empty notes; the list of the
    day of creation is as before. *)
Theorem created_item_is_listed
        (fk : bool) (t : string) (now : Dayjs.date) (s : db) :
  wf s ->
  Dayjs.valid_date now -> Dayjs.year (Dayjs.add_days 94 now) <= 9999 ->
  let s' := (run (post_question fk (Some t) now) s).2 in
  let tomorrow := Dayjs.format (Dayjs.Valid (Dayjs.add_days 1 now)) in
  get_schedule (Some tomorrow) now s'
  = get_schedule (Some tomorrow) now s
    ++ [mkTask (schedule_seq s + 1) tomorrow 0 t (questions_seq s + 1) ""]
  /\ get_schedule None now s' = get_schedule None now s.
Proof.
  intros Hwf Hv Hy. cbn zeta. unfold run.
  rewrite post_question_ok by exact I. cbn [snd].
  unfold get_schedule, or_default. fold (today_of now).
  destruct (String.eqb_spec (Dayjs.format
                               (Dayjs.Valid (Dayjs.add_days 1 now))) "")
    as [E|_]; [destruct (format_not_empty _ E)|].
  rewrite !select_tasks_created by exact Hwf.
  pose proof (due_rows_today (questions_seq s + 1) (schedule_seq s) now Hv)
    as Hdates.
  pose proof (NoDup_dates_from now Hv Hy) as Hnd. rewrite <- Hdates in Hnd.
  pose proof (today_not_due now Hv Hy) as Htoday.
  rewrite <- Hdates in Htoday. clear Hdates.
  assert (Hrows :
            due_rows (questions_seq s + 1) (schedule_seq s)
                     (Dayjs.parse (today_of now)) INTERVALS
            = mkSchedule (schedule_seq s + 1) (questions_seq s + 1)
                (Dayjs.format (Dayjs.Valid (Dayjs.add_days 1 now))) 0
              :: due_rows (questions_seq s + 1) (schedule_seq s + 1)
                   (Dayjs.Valid (Dayjs.add_days 1 now)) [3; 6; 12; 24; 48]).
  { unfold today_of. rewrite parse_format by exact Hv. reflexivity. }
  rewrite Hrows in *. split.
  - erewrite filter_head_NoDup; [reflexivity|reflexivity|exact Hnd].
  - rewrite filter_none; [apply app_nil_r|].
    intros r Hr. apply String.eqb_neq. intros E. apply Htoday.
    rewrite <- E. apply in_map, Hr.
Qed.

Lemma created_item_is_listed_witness :
  let now := Dayjs.mkDate 2024 1 1 in
  let s' := (run (post_question true (Some "LC 43"%string) now) empty_db).2 in
  let tomorrow := Dayjs.format (Dayjs.Valid (Dayjs.add_days 1 now)) in
  get_schedule (Some tomorrow) now s'
  = get_schedule (Some tomorrow) now empty_db
    ++ [mkTask (schedule_seq empty_db + 1) tomorrow 0 "LC 43"
               (questions_seq empty_db + 1) ""]
  /\ get_schedule None now s' = get_schedule None now empty_db.
Proof.
  apply (created_item_is_listed
           true "LC 43" (Dayjs.mkDate 2024 1 1) empty_db).
  - apply wf_empty.
  - unfold Dayjs.valid_date. vm_compute. intuition discriminate.
  - vm_compute. discriminate.
Defined.

(** ** The list of a day and the calendar agree *)

Lemma select_tasks_completed (d : string) (s : db) :
  wf s -> map t_completed (select_tasks d s) = map s_completed (due_on d s).
Proof.
  intros Hwf. pose proof (wf_owner s Hwf) as Ho.
  pose proof (wf_question_ids s Hwf) as Hq.
  unfold select_tasks, due_on.
  induction (schedule s) as [|r rows IH]; [reflexivity|].
  apply List.Forall_cons_iff in Ho as [Hr Ho].
  cbn [flat_map List.filter]. rewrite map_app, IH by exact Ho.
  destruct (String.eqb (s_due_date r) d); [|reflexivity].
  apply has_question_In in Hr.
  destruct (filter_owner (s_question_id r) (questions s) Hq Hr) as [q ->].
  reflexivity.
Qed.

Lemma statsMap_outstanding (d : string) (s : db) :
  Client.statsMap (get_calendar_stats s) !! d
  = match outstanding d s with
    | O => None
    | S n => Some (S n)
    end.
Proof.
  assert (Hnd : NoDup (map fst (get_calendar_stats s)))
    by (rewrite calendar_stats_keys; apply NoDup_remove_dups).
  destruct (outstanding d s) as [|n] eqn:E.
  - destruct (Client.statsMap (get_calendar_stats s) !! d) as [k|] eqn:L;
      [|reflexivity].
    apply statsMap_lookup, in_calendar_stats in L; [lia|exact Hnd].
  - apply statsMap_lookup; [exact Hnd|].
    apply in_calendar_stats. split; [congruence|lia].
Qed.

(** X9.  In a store that keeps the invariant, the number of tasks
    remaining that the client shows for the selected day (the tasks of
    [GET /api/schedule] that are not complete) is the count the calendar
    has for that day from [GET /api/calendar-stats], 0 when it has
    none. *)
Theorem remaining_matches_calendar (date : string) (now : Dayjs.date) (s : db) :
  wf s -> date <> ""%string ->
  Calendar.remaining (get_schedule (Some date) now s)
  = Calendar.count (Client.statsMap (get_calendar_stats s)) date
  /\ Calendar.remaining (get_schedule (Some date) now s) = outstanding date s.
Proof.
  intros Hwf Hd.
  assert (E : Calendar.remaining (get_schedule (Some date) now s)
              = outstanding date s).
  { unfold get_schedule, or_default.
    destruct (String.eqb_spec date ""); [contradiction|].
    unfold Calendar.remaining, outstanding.
    rewrite <- (length_map t_completed).
    rewrite <- (filter_map_swap' t_completed (fun c => c =? 0)).
    rewrite select_tasks_completed by exact Hwf.
    rewrite filter_map_swap', length_map. unfold due_on.
    rewrite filter_filter. f_equal. apply filter_ext.
    intros r. apply andb_comm. }
  split; [|exact E]. rewrite E. unfold Calendar.count.
  rewrite statsMap_outstanding. destruct (outstanding date s); reflexivity.
Qed.

Lemma remaining_matches_calendar_witness :
  let now := Dayjs.mkDate 2024 1 1 in
  let s := created "LC 43" now empty_db in
  Calendar.remaining (get_schedule (Some "2024-01-02"%string) now s)
  = Calendar.count (Client.statsMap (get_calendar_stats s)) "2024-01-02"
  /\ Calendar.remaining (get_schedule (Some "2024-01-02"%string) now s)
     = outstanding "2024-01-02" s.
Proof.
  apply (remaining_matches_calendar
           "2024-01-02" (Dayjs.mkDate 2024 1 1)
           (created "LC 43" (Dayjs.mkDate 2024 1 1) empty_db)).
  - apply wf_created, wf_empty.
  - discriminate.
Defined.

End StoreMore.

(* ===================================================================== *)
(** * Further properties of the client *)
(* ===================================================================== *)

Section ClientMore.
Import Dayjs Calendar.

(** ** The grid of the month *)

Lemma length_array_from (n : Z) (f : Z -> Z) :
  length (array_from n f) = Z.to_nat n.
Proof. unfold array_from. rewrite length_map, length_seq. reflexivity. Qed.

Lemma lookup_array_from (n : Z) (f : Z -> Z) (i : nat) :
  (i < Z.to_nat n)%nat -> array_from n f !! i = Some (f (Z.of_nat i)).
Proof.
  intros Hi. unfold array_from.
  change (map ?g ?l) with (g <$> l).
  rewrite list_lookup_fmap, lookup_seq_lt by exact Hi. reflexivity.
Qed.

Lemma weekday_range (d : date) : 0 <= weekday d <= 6.
Proof. unfold weekday. Z.to_euclidean_division_equations; lia. Qed.

Lemma first_cal_valid (d : date) :
  1 <= month d <= 12 -> cal_valid (mkDate (year d) (month d) 1).
Proof.
  intros Hm. unfold cal_valid; cbn [year month day].
  pose proof (days_in_month_le (year d) (month d)). lia.
Qed.

Lemma set_date_in_month (k : Z) (d : date) :
  1 <= k <= daysInMonth d -> set_date k d = mkDate (year d) (month d) k.
Proof.
  intros Hk. unfold set_date, add_days, daysInMonth in *.
  destruct (Z.leb_spec 0 (k - 1)); [|lia].
  rewrite iter_next_day_in_month by lia. f_equal. lia.
Qed.

(** X10.  In the grid of a month, the cell after the blanks and the days
    before it holds each day [k] of the month: it is child number
    [first + k - 1] of the seven-column grid, where [first] is the weekday
    of the first of the month, and so it stands in the column of the
    weekday of its own date, under that day's letter.  The grid has the
    blanks and days 1 to the last of the month, each once. *)
Theorem grid_days_under_weekdays (currentMonth : date) (k : Z) :
  1 <= month currentMonth <= 12 ->
  1 <= k <= daysInMonth currentMonth ->
  let first := weekday (startOf_month currentMonth) in
  let i := first + k - 1 in
  grid currentMonth !! Z.to_nat i = Some (Day k)
  /\ i mod 7 = weekday (set_date k currentMonth)
  /\ set_date k currentMonth
     = mkDate (year currentMonth) (month currentMonth) k
  /\ length (grid currentMonth)
     = Z.to_nat (first + daysInMonth currentMonth).
Proof.
  intros Hm Hk. cbn zeta.
  pose proof (weekday_range (startOf_month currentMonth)) as Hw.
  split; [|split; [|split]].
  - unfold grid. rewrite lookup_app_r;
      rewrite length_map; unfold emptySlots; rewrite length_array_from;
      [|lia].
    change (map Day ?l) with (Day <$> l). rewrite list_lookup_fmap.
    unfold daysArray. rewrite lookup_array_from by lia.
    cbn [fmap option_fmap option_map]. do 2 f_equal. lia.
  - unfold set_date, startOf_month.
    rewrite weekday_add_days by (try lia; apply first_cal_valid, Hm).
    f_equal. lia.
  - apply set_date_in_month, Hk.
  - unfold grid, emptySlots, daysArray.
    rewrite length_app, !length_map, !length_array_from.
    pose proof (days_in_month_le (year currentMonth) (month currentMonth)).
    unfold daysInMonth. lia.
Qed.

Lemma grid_days_under_weekdays_witness :
  let currentMonth := mkDate 2024 2 15 in
  let first := weekday (startOf_month currentMonth) in
  let i := first + 29 - 1 in
  grid currentMonth !! Z.to_nat i = Some (Day 29)
  /\ i mod 7 = weekday (set_date 29 currentMonth)
  /\ set_date 29 currentMonth
     = mkDate (year currentMonth) (month currentMonth) 29
  /\ length (grid currentMonth)
     = Z.to_nat (first + daysInMonth currentMonth).
Proof.
  apply (grid_days_under_weekdays (mkDate 2024 2 15) 29).
  - vm_compute. intuition discriminate.
  - vm_compute. intuition discriminate.
Defined.

(** ** Changing the month *)

Lemma add_months_year_month (n : Z) (d : date) :
  year (add_months n d) = year d + (month d - 1 + n) / 12
  /\ month (add_months n d) = (month d - 1 + n) mod 12 + 1.
Proof. split; reflexivity. Qed.

(** X11.  Going [val] months on and [val] months back shows the month
    the calendar showed before: the same year and month, hence the same
    grid and the same date under every cell.  The day of the month kept
    in the state never grows on the way, and stays a day of the month
    shown. *)
Theorem changeMonth_there_and_back (val : Z) (currentMonth : date) :
  cal_valid currentMonth ->
  let back := changeMonth (- val) (changeMonth val currentMonth) in
  year back = year currentMonth
  /\ month back = month currentMonth
  /\ grid back = grid currentMonth
  /\ (forall k, dateStr back k = dateStr currentMonth k)
  /\ day back <= day currentMonth
  /\ cal_valid (changeMonth val currentMonth)
  /\ cal_valid back.
Proof.
  intros [Hm Hd]. cbn zeta. unfold changeMonth.
  set (there := add_months val currentMonth).
  assert (Hy : year (add_months (- val) there) = year currentMonth
               /\ month (add_months (- val) there) = month currentMonth).
  { destruct (add_months_year_month (- val) there) as [-> ->].
    destruct (add_months_year_month val currentMonth) as [Ey Em].
    fold there in Ey, Em. rewrite Ey, Em.
    split; Z.to_euclidean_division_equations; lia. }
  destruct Hy as [Hy Hmo].
  assert (Hvalid : forall n d, cal_valid d -> cal_valid (add_months n d)).
  { intros n d [Hm' Hd']. unfold cal_valid, add_months; cbn [year month day].
    pose proof (days_in_month_le (year d + (month d - 1 + n) / 12)
                                 ((month d - 1 + n) mod 12 + 1)).
    split; [Z.to_euclidean_division_equations; lia|lia]. }
  assert (Hday : forall n d, day (add_months n d) <= day d).
  { intros n d. unfold add_months; cbn [day]. lia. }
  split; [exact Hy|]. split; [exact Hmo|].
  split; [|split; [|split; [|split]]].
  - unfold grid, emptySlots, daysArray, daysInMonth, startOf_month.
    rewrite Hy, Hmo. reflexivity.
  - intros k. unfold dateStr, set_date. rewrite Hy, Hmo. reflexivity.
  - pose proof (Hday (- val) there). pose proof (Hday val currentMonth).
    fold there in H0. lia.
  - apply Hvalid. split; assumption.
  - apply Hvalid, Hvalid. split; assumption.
Qed.

Lemma changeMonth_there_and_back_witness :
  let currentMonth := mkDate 2024 1 31 in
  let back := changeMonth (- 1) (changeMonth 1 currentMonth) in
  year back = year currentMonth
  /\ month back = month currentMonth
  /\ grid back = grid currentMonth
  /\ (forall k, dateStr back k = dateStr currentMonth k)
  /\ day back <= day currentMonth
  /\ cal_valid (changeMonth 1 currentMonth)
  /\ cal_valid back.
Proof.
  apply (changeMonth_there_and_back 1 (mkDate 2024 1 31)).
  unfold cal_valid. vm_compute. intuition discriminate.
Defined.

End ClientMore.

Section EditorMore.
Import Json Client Editor.

(** X12.  Pressing "Show Notes" / "Hide Notes" for a task flips whether
    that task is expanded and changes it for no other task; pressing it
    twice gives the set of expanded tasks back. *)
Theorem toggleNotes_flips_one (taskId : Z) (expandedTasks : gset Z) :
  (taskId ∈ toggleNotes taskId expandedTasks <-> taskId ∉ expandedTasks)
  /\ (forall other, other <> taskId ->
        (other ∈ toggleNotes taskId expandedTasks <-> other ∈ expandedTasks))
  /\ toggleNotes taskId (toggleNotes taskId expandedTasks) = expandedTasks.
Proof.
  unfold toggleNotes. cbn zeta. split; [|split].
  - destruct (decide (taskId ∈ expandedTasks)) as [Hin|Hout].
    + rewrite elem_of_difference, elem_of_singleton. tauto.
    + rewrite elem_of_union, elem_of_singleton. tauto.
  - intros other Hne. destruct (decide (taskId ∈ expandedTasks)).
    + rewrite elem_of_difference, elem_of_singleton. tauto.
    + rewrite elem_of_union, elem_of_singleton. tauto.
  - destruct (decide (taskId ∈ expandedTasks)) as [Hin|Hout].
    + rewrite decide_False
        by (rewrite elem_of_difference, elem_of_singleton; tauto).
      apply set_eq. intros x.
      rewrite elem_of_union, elem_of_difference, !elem_of_singleton.
      destruct (decide (x = taskId)) as [->|Hne]; tauto.
    + rewrite decide_True
        by (rewrite elem_of_union, elem_of_singleton; tauto).
      apply set_eq. intros x.
      rewrite elem_of_difference, elem_of_union, !elem_of_singleton.
      destruct (decide (x = taskId)) as [->|Hne]; tauto.
Qed.

Lemma toggleNotes_flips_one_witness :
  toggleNotes 3 (toggleNotes 3 {[1; 3]}) = ({[1; 3]} : gset Z).
Proof. apply (toggleNotes_flips_one 3 {[1; 3]}). Defined.

(** ** Editing the notes *)

Lemma stored_parse_saved (bf opt : jsstring) :
  parseNotes (stringify_notes bf opt) = mkNotes (JString bf) (JString opt).
Proof.
  rewrite (parseNotes_parsed _ _ (stringify_notes_not_empty bf opt)
                             (JSON_parse_stringify bf opt))
    by discriminate.
  unfold member.
  change (lookup_key (of_string "bruteForce") _) with (Some (JString bf)).
  change (lookup_key (of_string "optimized") _) with (Some (JString opt)).
  destruct bf, opt; reflexivity.
Qed.

(** X13.  When an item has no draft and its stored notes are the text
    saved for the payload [{a, b}], the first edit of one field makes a
    draft with that field replaced and the other field as it was saved;
    the drafts of other items are not touched. *)
Theorem first_edit_keeps_other_field
        (questionId : Z) (value a b : jsstring) (tasks : list row)
        (prev : gmap Z notes) :
  prev !! questionId = None ->
  stored_notes questionId tasks = stringify_notes a b ->
  handleNotesChange questionId BruteForce value tasks prev !! questionId
  = Some (mkNotes (JString value) (JString b))
  /\ handleNotesChange questionId Optimized value tasks prev !! questionId
     = Some (mkNotes (JString a) (JString value))
  /\ (forall f other, other <> questionId ->
        handleNotesChange questionId f value tasks prev !! other
        = prev !! other).
Proof.
  intros Hnone Hstored. unfold handleNotesChange, current_notes.
  rewrite Hnone, Hstored, stored_parse_saved. cbn zeta.
  split; [|split].
  - rewrite lookup_insert_eq. reflexivity.
  - rewrite lookup_insert_eq. reflexivity.
  - intros f other Hne. apply lookup_insert_ne. congruence.
Qed.

Lemma first_edit_keeps_other_field_witness :
  let tasks := [mkRow 7 (stringify_notes (of_string "scan all pairs")
                                         (of_string "hash map"))] in
  handleNotesChange 7 BruteForce (of_string "nested loops") tasks ∅ !! 7
  = Some (mkNotes (JString (of_string "nested loops"))
                  (JString (of_string "hash map")))
  /\ handleNotesChange 7 Optimized (of_string "nested loops") tasks ∅ !! 7
     = Some (mkNotes (JString (of_string "scan all pairs"))
                     (JString (of_string "nested loops")))
  /\ (forall f other, other <> 7 ->
        handleNotesChange 7 f (of_string "nested loops") tasks ∅ !! other
        = (∅ : gmap Z notes) !! other).
Proof.
  apply (first_edit_keeps_other_field
           7 (of_string "nested loops") (of_string "scan all pairs")
           (of_string "hash map")
           [mkRow 7 (stringify_notes (of_string "scan all pairs")
                                     (of_string "hash map"))] ∅).
  - apply lookup_empty.
  - reflexivity.
Defined.

(** X14.  Once both fields of an item have been edited, in either order,
    its draft is exactly the two texts typed, whatever was stored or
    drafted before; dropping the draft (Cancel, or after a save) brings
    the editor back to what it read before the edits, and no edit touches
    the draft of another item. *)
Theorem edits_determine_draft
        (questionId : Z) (v w : jsstring) (tasks : list row)
        (prev : gmap Z notes) :
  let d1 := handleNotesChange questionId Optimized w tasks
              (handleNotesChange questionId BruteForce v tasks prev) in
  let d2 := handleNotesChange questionId BruteForce v tasks
              (handleNotesChange questionId Optimized w tasks prev) in
  d1 !! questionId = Some (mkNotes (JString v) (JString w))
  /\ d2 = d1
  /\ (forall other, other <> questionId -> d1 !! other = prev !! other)
  /\ (prev !! questionId = None ->
      current_notes questionId tasks (drop_draft questionId d1)
      = current_notes questionId tasks prev).
Proof.
  cbn zeta. unfold handleNotesChange, current_notes.
  rewrite !lookup_insert_eq, !insert_insert_eq. cbn [with_field bruteForce optimized].
  split; [reflexivity|]. split; [reflexivity|]. split.
  - intros other Hne. apply lookup_insert_ne. congruence.
  - intros Hnone. unfold drop_draft.
    rewrite lookup_delete_eq, Hnone. reflexivity.
Qed.

Lemma edits_determine_draft_witness :
  let tasks := [mkRow 7 (of_string "two pointers")] in
  let v := of_string "nested loops" in
  let w := of_string "hash map" in
  handleNotesChange 7 Optimized w tasks
    (handleNotesChange 7 BruteForce v tasks ∅) !! 7
  = Some (mkNotes (JString v) (JString w)).
Proof.
  apply (edits_determine_draft 7 (of_string "nested loops")
           (of_string "hash map") [mkRow 7 (of_string "two pointers")] ∅).
Defined.

End EditorMore.
